(** * Session orchestration of the Apple911 support agent

    A shallow embedding of the two conversation surfaces of the repository:
    the text chat ([src/components/ChatBot.tsx]) and the duplex voice agent
    ([src/components/LiveVoiceAgent.tsx]), with the properties their
    specification states about history sanitisation, tool dispatch, text
    assembly, playback scheduling, interruption, muting and teardown.

    React state and refs become fields of an explicit state record; every
    handler is a function from state (and the values the environment hands
    it: clock readings, stream fragments, service replies) to state.  Calls
    to collaborators outside the component (the booking form callback, the
    model service connection) are appended to a trace held in the state. *)

From Stdlib Require Import QArith Qminmax Lqa Lia Sorted.
From stdpp Require Import base option list gmap strings pretty.

Set Default Proof Using "Type".

(** ** JavaScript strings

    A JavaScript string is a sequence of UTF-16 code units. *)

Definition jstring : Type := list N.

Definition js (s : string) : jstring :=
  (λ a : Ascii.ascii, Ascii.N_of_ascii a) <$> String.list_ascii_of_string s.

(** The code units [String.prototype.trim] strips: the WhiteSpace and
    LineTerminator productions of ECMAScript. *)
Definition isWhiteSpace (c : N) : bool :=
  ((9 <=? c) && (c <=? 13) || (c =? 32) || (c =? 160) || (c =? 5760)
   || (8192 <=? c) && (c <=? 8202) || (c =? 8232) || (c =? 8233)
   || (c =? 8239) || (c =? 8287) || (c =? 12288) || (c =? 65279))%N.

Fixpoint trimStart (s : jstring) : jstring :=
  match s with
  | c :: s' => if isWhiteSpace c then trimStart s' else s
  | [] => []
  end.

Definition trimEnd (s : jstring) : jstring := rev (trimStart (rev s)).

Definition trim (s : jstring) : jstring := trimEnd (trimStart s).

(** JavaScript truthiness of a string: the empty string is falsy. *)
Definition truthy (s : jstring) : bool :=
  match s with [] => false | _ :: _ => true end.

(** [Date.now().toString()]: the decimal numeral of a millisecond count. *)
Definition toString (n : N) : jstring := js (pretty n).

(** ** Tool invocations and the booking draft, shared by both surfaces *)

(** The SDK's [FunctionCall]: [{ id, name, args }]; [args] is the JSON
    object of the invocation, a map from field names to values. *)
Record FunctionCall := {
  fc_id : jstring;
  fc_name : jstring;
  fc_args : gmap string jstring
}.

(** [BookingData], as the two object literals of the sources build it;
    a field the invocation does not carry stays [undefined]. *)
Record BookingData := {
  name : option jstring;
  phone : option jstring;
  email : option jstring;
  address : option jstring;
  deviceType : option jstring;
  serviceType : option jstring;
  description : option jstring
}.

(** [{ name: args.name, ..., serviceType: args.serviceType,
       description: args.issue }] *)
Definition bookingDataOf (args : gmap string jstring) : BookingData :=
  {| name := args !! "name";
     phone := args !! "phone";
     email := args !! "email";
     address := args !! "address";
     deviceType := args !! "deviceType";
     serviceType := args !! "serviceType";
     description := args !! "issue" |}.

(** An invocation written out: its id, its tool and its arguments. *)
Definition callOf (id tool : string) (args : list (string * jstring))
  : FunctionCall :=
  {| fc_id := js id; fc_name := js tool; fc_args := list_to_map args |}.

(** How a step that may throw ends: normally, or abruptly with the state
    reached when the exception left it. *)
Inductive Completion (A : Type) :=
  | Normal (a : A)
  | Abrupt (a : A).
Arguments Normal {A} a.
Arguments Abrupt {A} a.

Definition outcome {A} (c : Completion A) : A :=
  match c with Normal a | Abrupt a => a end.

(** A loop over a list whose body may throw: the exception ends the loop. *)
Fixpoint forOf {A B} (body : B → A → Completion A) (l : list B) (a : A)
  : Completion A :=
  match l with
  | [] => Normal a
  | x :: l' =>
      match body x a with
      | Normal a' => forOf body l' a'
      | Abrupt a' => Abrupt a'
      end
  end.

(** ** Text chat: turns and the history sanitiser *)

Module ChatBot.

Inductive Role := user | model.

#[export] Instance Role_eq_dec : EqDecision Role.
Proof. solve_decision. Defined.

(** [interface Message { id; role: 'user' | 'model'; text }] *)
Record Message := {
  msg_id : jstring;
  msg_role : Role;
  msg_text : jstring
}.

(** The SDK's [Content]: [{ role, parts: [{ text }] }]. *)
Record TextPart := { part_text : jstring }.
Record Content := {
  content_role : Role;
  content_parts : list TextPart
}.

(** [expectedRole === 'user' ? 'model' : 'user'] *)
Definition flipRole (expectedRole : Role) : Role :=
  if decide (expectedRole = user) then model else user.

(** [messages.filter(msg => msg.id !== '1' && msg.text.trim() !== '')] *)
Definition keepForHistory (msg : Message) : bool :=
  bool_decide (msg_id msg ≠ js "1") && bool_decide (trim (msg_text msg) ≠ []).

Definition historyMessages (messages : list Message) : list Message :=
  List.filter keepForHistory messages.

(** One iteration of the [forEach] of [initChat]; the loop state is the
    pair of the mutable [validHistory] and [expectedRole].  The branch that
    only logs a warning leaves both untouched. *)
Definition walkStep (st : list Content * Role) (msg : Message)
  : list Content * Role :=
  let '(validHistory, expectedRole) := st in
  if decide (msg_role msg = expectedRole) then
    (validHistory ++ [ {| content_role := msg_role msg;
                          content_parts := [ {| part_text := msg_text msg |} ] |} ],
     flipRole expectedRole)
  else st.

Definition walk (messages : list Message) : list Content * Role :=
  fold_left walkStep (historyMessages messages) ([], user).

(** [validHistory.length > 0 && validHistory[validHistory.length-1].role === 'user'] *)
Definition endsOnUser (validHistory : list Content) : bool :=
  match last validHistory with
  | Some c => bool_decide (content_role c = user)
  | None => false
  end.

(** The history handed to [ai.chats.create]: the walk's result, with its
    last turn popped when that turn is a user turn. *)
Definition sanitize (messages : list Message) : list Content :=
  let validHistory := (walk messages).1 in
  if endsOnUser validHistory then removelast validHistory else validHistory.

(** Roles alternate, the first one being [r]. *)
Fixpoint alternatesFrom (r : Role) (l : list Role) : bool :=
  match l with
  | [] => true
  | x :: l' => bool_decide (x = r) && alternatesFrom (flipRole r) l'
  end.

(** The role the walk expects after the roles [l], when it expected [r]
    before them. *)
Definition expects (r : Role) (l : list Role) : Role :=
  fold_left (λ r _, flipRole r) l r.

(** *** The chat component's state *)

(** The [Chat] object of the SDK, as far as the component fixes it: the
    history it was created with. *)
Record ChatHandle := { history : list Content }.

(** What the component does to its collaborators, in order. *)
Inductive Event :=
  | OpenBookingForm (bookingData : BookingData)
  | SendMessageStream (message : jstring)
  | SendFunctionResponse (tool : jstring) (result : jstring).

Record Chat := {
  messages : list Message;
  inputValue : jstring;
  isLoading : bool;
  chatSession : option ChatHandle;
  error : option jstring;
  trace : list Event
}.

Definition setMessages (f : list Message → list Message) (c : Chat) : Chat :=
  {| messages := f (messages c); inputValue := inputValue c;
     isLoading := isLoading c; chatSession := chatSession c;
     error := error c; trace := trace c |}.

Definition setInputValue (v : jstring) (c : Chat) : Chat :=
  {| messages := messages c; inputValue := v;
     isLoading := isLoading c; chatSession := chatSession c;
     error := error c; trace := trace c |}.

Definition setIsLoading (b : bool) (c : Chat) : Chat :=
  {| messages := messages c; inputValue := inputValue c;
     isLoading := b; chatSession := chatSession c;
     error := error c; trace := trace c |}.

Definition setChatSession (h : option ChatHandle) (c : Chat) : Chat :=
  {| messages := messages c; inputValue := inputValue c;
     isLoading := isLoading c; chatSession := h;
     error := error c; trace := trace c |}.

Definition setError (e : option jstring) (c : Chat) : Chat :=
  {| messages := messages c; inputValue := inputValue c;
     isLoading := isLoading c; chatSession := chatSession c;
     error := e; trace := trace c |}.

Definition emit (e : Event) (c : Chat) : Chat :=
  {| messages := messages c; inputValue := inputValue c;
     isLoading := isLoading c; chatSession := chatSession c;
     error := error c; trace := trace c ++ [e] |}.

(** [initChat], run by the effect [if (isOpen && !chatSession) initChat()].
    [API_KEY] is [process.env.API_KEY]. *)
Definition initChat (API_KEY : option jstring) (c : Chat) : Chat :=
  if negb (from_option truthy false API_KEY) then
    setError (Some (js "API Key missing. System offline.")) c
  else
    setChatSession (Some {| history := sanitize (messages c) |}) c.

Definition initEffect (isOpen : bool) (API_KEY : option jstring) (c : Chat)
  : Chat :=
  if isOpen && negb (bool_decide (is_Some (chatSession c)))
  then initChat API_KEY c else c.

(** *** Consuming the response stream *)

(** A part of a streamed candidate; only [functionCall] is read. *)
Record Part := { functionCall : option FunctionCall }.

(** One fragment of the stream: [candidates?.[0]?.content?.parts] and the
    value of the SDK's [text] accessor. *)
Record Chunk := {
  chunk_parts : option (list Part);
  chunk_text : option jstring
}.

(** The result of [sendMessageStream]: the fragments it yields, and
    whether the iteration then throws instead of finishing. *)
Record Stream := {
  chunks : list Chunk;
  breaks : bool
}.

(** The answer of the service to one [sendMessage]: a response whose
    [text] accessor gives the value, or a rejected promise. *)
Inductive Reply :=
  | Replies (text : option jstring)
  | Rejects.

(** [prev.map(msg => msg.id === botMsgId ? { ...msg, text } : msg)] *)
Definition withText (botMsgId fullResponseText : jstring) (prev : list Message)
  : list Message :=
  (λ msg, if decide (msg_id msg = botMsgId)
          then {| msg_id := msg_id msg; msg_role := msg_role msg;
                  msg_text := fullResponseText |}
          else msg) <$> prev.

(** The variables the [for await] loop carries: the component state, the
    local [fullResponseText], and how many [sendMessage] calls were made
    (the index of the next reply of the service). *)
Record Loop := {
  loop_chat : Chat;
  fullResponseText : jstring;
  acks : nat
}.

(** [c.candidates?.[0]?.content?.parts?.filter(p => p.functionCall)
       ?.map(p => p.functionCall)] *)
Definition functionCallsOf (c : Chunk) : option (list (option FunctionCall)) :=
  (λ ps, functionCall <$>
           List.filter (λ p, bool_decide (is_Some (functionCall p))) ps)
  <$> chunk_parts c.

Section Stream.

(** The replies of the service to the successive [sendMessage] calls. *)
Variable toolReply : nat → Reply.
Variable botMsgId : jstring.

(** The body of [for (const call of functionCalls)]. *)
Definition handleCall (call : option FunctionCall) (st : Loop)
  : Completion Loop :=
  match call with
  | Some call =>
      if decide (fc_name call = js "open_booking_form") then
        let bookingData := bookingDataOf (fc_args call) in
        let c1 := emit (OpenBookingForm bookingData) (loop_chat st) in
        let c2 := emit (SendFunctionResponse (js "open_booking_form")
                          (js "Form Opened with prefilled data.")) c1 in
        match toolReply (acks st) with
        | Rejects =>
            Abrupt {| loop_chat := c2;
                      fullResponseText := fullResponseText st;
                      acks := S (acks st) |}
        | Replies toolResp_text =>
            if from_option truthy false toolResp_text then
              let full := fullResponseText st ++ default [] toolResp_text in
              Normal {| loop_chat := setMessages (withText botMsgId full) c2;
                        fullResponseText := full;
                        acks := S (acks st) |}
            else
              Normal {| loop_chat := c2;
                        fullResponseText := fullResponseText st;
                        acks := S (acks st) |}
        end
      else Normal st
  | None => Normal st
  end.

(** The body of [for await (const chunk of result)]. *)
Definition handleChunk (c : Chunk) (st : Loop) : Completion Loop :=
  let afterCalls :=
    match functionCallsOf c with
    | Some functionCalls =>
        if (0 <? length functionCalls)%nat
        then forOf handleCall functionCalls st
        else Normal st
    | None => Normal st
    end in
  match afterCalls with
  | Normal st1 =>
      let chunkText := default [] (chunk_text c) in
      let full := fullResponseText st1 ++ chunkText in
      Normal {| loop_chat := setMessages (withText botMsgId full) (loop_chat st1);
                fullResponseText := full;
                acks := acks st1 |}
  | Abrupt st1 => Abrupt st1
  end.

End Stream.

(** [handleSendMessage(text)].  [now1] and [now2] are the two readings of
    [Date.now()]; [result] is what [sendMessageStream] resolves to ([None]
    when it rejects). *)
Definition handleSendMessage (text : jstring) (now1 now2 : N)
    (result : option Stream) (toolReply : nat → Reply) (c : Chat) : Chat :=
  if negb (truthy (trim text))
     || negb (bool_decide (is_Some (chatSession c)))
     || isLoading c
  then c
  else
    let userMsg := {| msg_id := toString now1; msg_role := user;
                      msg_text := text |} in
    let c1 := setError None
                (setIsLoading true
                   (setInputValue []
                      (setMessages (λ prev, prev ++ [userMsg]) c))) in
    let caught := setError (Some (js "Data Stream Interrupted.")) in
    let c2 :=
      let c1 := emit (SendMessageStream text) c1 in
      match result with
      | None => caught c1
      | Some result =>
          let botMsgId := toString (now2 + 1) in
          let c1 := setMessages
                      (λ prev, prev ++ [ {| msg_id := botMsgId;
                                            msg_role := model;
                                            msg_text := [] |} ]) c1 in
          match forOf (handleChunk toolReply botMsgId) (chunks result)
                  {| loop_chat := c1; fullResponseText := []; acks := 0 |} with
          | Normal st =>
              if breaks result then caught (loop_chat st)
              else loop_chat st
          | Abrupt st => caught (loop_chat st)
          end
      end in
    setIsLoading false c2.

(** *** Vocabulary of the text chat's properties *)

(** A call of the loop that the [open_booking_form] branch takes. *)
Definition isBookingCall (call : option FunctionCall) : bool :=
  match call with
  | Some call => bool_decide (fc_name call = js "open_booking_form")
  | None => false
  end.

Definition bookingCallsIn (c : Chunk) : nat :=
  length (List.filter isBookingCall (default [] (functionCallsOf c))).

(** How many booking drafts a trace forwards to the form. *)
Definition formsOpened (t : list Event) : nat :=
  length (List.filter (λ e, match e with OpenBookingForm _ => true | _ => false end) t).

(** How many tool results a trace returns to the service. *)
Definition resultsReturned (t : list Event) : nat :=
  length (List.filter (λ e, match e with SendFunctionResponse _ _ => true | _ => false end) t).

(** The text a reader is to see, in the specification's words: fragment
    after fragment in receipt order, and within a fragment the follow-up
    text of each of its tool exchanges before the fragment's own text.
    [followUp i] is the text of the [i]-th exchange, and [k] the number of
    exchanges before these fragments. *)
Fixpoint narrative (followUp : nat → option jstring) (k : nat)
    (fragments : list Chunk) : jstring :=
  match fragments with
  | [] => []
  | c :: rest =>
      let n := bookingCallsIn c in
      concat ((λ i, default [] (followUp (k + i)%nat)) <$> seq 0 n)
      ++ default [] (chunk_text c)
      ++ narrative followUp (k + n) rest
  end.

(** What one call of the loop does to the collaborators: a booking call
    forwards its draft to the form and returns its result to the service;
    any other call does nothing. *)
Definition callEvents (call : option FunctionCall) : list Event :=
  match call with
  | Some fc =>
      if isBookingCall call then
        [ OpenBookingForm (bookingDataOf (fc_args fc));
          SendFunctionResponse (js "open_booking_form")
            (js "Form Opened with prefilled data.") ]
      else []
  | None => []
  end.

Definition chunkEvents (c : Chunk) : list Event :=
  concat (callEvents <$> default [] (functionCallsOf c)).

(** A service that answers every tool result, the [i]-th one with a
    response whose text is [followUp i]. *)
Definition answered (followUp : nat → option jstring) : nat → Reply :=
  λ i, Replies (followUp i).

(** The loop invariant tying the local [fullResponseText] to the
    component state: the placeholder turn is the last message and shows
    exactly the text assembled so far. *)
Definition placeholderShows (botMsgId : jstring) (st : Loop) : Prop :=
  last (messages (loop_chat st))
  = Some {| msg_id := botMsgId; msg_role := model;
            msg_text := fullResponseText st |}.

(** A chat that is open and idle, with the seeded greeting only. *)
Definition idleChat : Chat :=
  {| messages := [ {| msg_id := js "1"; msg_role := model;
                      msg_text := js "Apple911 Neural Link Active." |} ];
     inputValue := []; isLoading := false;
     chatSession := Some {| history := [] |};
     error := None; trace := [] |}.

Definition turn (id : string) (r : Role) (text : string) : Message :=
  {| msg_id := js id; msg_role := r; msg_text := js text |}.

(** A persisted log: the seeded greeting, an answered prompt, and a prompt
    that never got its answer. *)
Definition sampleLog : list Message :=
  [ turn "1" model "Apple911 Neural Link Active.";
    turn "1700000000000" user "A";
    turn "1700000000001" model "B";
    turn "1700000000002" user "C" ].

Definition fragment (calls : list FunctionCall) (text : string) : Chunk :=
  {| chunk_parts := Some ((λ fc, {| functionCall := Some fc |}) <$> calls);
     chunk_text := Some (js text) |}.

(** What the loop of [handleSendMessage] leaves alone between two of its
    states: the ids and roles of the turns, the input, the busy flag, the
    session and the error flag; and the drafts forwarded and results
    returned grow together. *)
Definition steady (c c' : Chat) : Prop :=
  msg_id <$> messages c' = msg_id <$> messages c
  ∧ msg_role <$> messages c' = msg_role <$> messages c
  ∧ inputValue c' = inputValue c
  ∧ isLoading c' = isLoading c
  ∧ chatSession c' = chatSession c
  ∧ error c' = error c
  ∧ (formsOpened (trace c') + resultsReturned (trace c)
     = formsOpened (trace c) + resultsReturned (trace c'))%nat.

(** *** Resetting the history *)

(** The seeded greeting turn. *)
Definition greeting : Message :=
  {| msg_id := js "1"; msg_role := model;
     msg_text := js "Apple911 Neural Link Active. I am Tumelo, your digital diagnostic unit. Please state your name so I may address you properly." |}.

(** [clearHistory]: the log is the greeting alone and the session is
    dropped.  (The removal of the persisted copy is not part of the
    component state.) *)
Definition clearHistory (c : Chat) : Chat :=
  setChatSession None (setMessages (λ _, [greeting]) c).

(** The turn of the log that a message becomes in the submitted history. *)
Definition toContent (msg : Message) : Content :=
  {| content_role := msg_role msg;
     content_parts := [ {| part_text := msg_text msg |} ] |}.

(** *** Rendering a turn's text: [formatMessageText] *)

(** [s] without the prefix [p], when it starts with [p]. *)
Fixpoint stripPrefix (p s : jstring) : option jstring :=
  match p, s with
  | [], _ => Some s
  | a :: p', b :: s' => if (a =? b)%N then stripPrefix p' s' else None
  | _ :: _, [] => None
  end.

(** The length of the longest run of [[^\s]] at the start of [s]. *)
Fixpoint nonSpaces (s : jstring) : nat :=
  match s with
  | c :: s' => if isWhiteSpace c then 0%nat else S (nonSpaces s')
  | [] => 0%nat
  end.

(** The match of [p] followed by [[^\s]+] at the start of [s]: its
    length. *)
Definition schemeAt (p s : jstring) : option nat :=
  match stripPrefix p s with
  | Some rest =>
      if (0 <? nonSpaces rest)%nat then Some (length p + nonSpaces rest)%nat
      else None
  | None => None
  end.

(** The match of [/https?:\/\/[^\s]+/] at the start of [s]: its length.
    The optional [s] is tried first, as the regular expression does. *)
Definition urlAt (s : jstring) : option nat :=
  match schemeAt (js "https://") s with
  | Some n => Some n
  | None => schemeAt (js "http://") s
  end.

(** The leftmost match of the regular expression in [s]: the text before
    it, the match, and the text after it. *)
Fixpoint search (s : jstring) : option (jstring * jstring * jstring) :=
  match urlAt s with
  | Some n => Some ([], take n s, drop n s)
  | None =>
      match s with
      | [] => None
      | c :: s' =>
          match search s' with
          | Some (before, url, after) => Some (c :: before, url, after)
          | None => None
          end
      end
  end.

(** [text.split(urlRegex)] with its capturing group: the texts between
    the matches alternate with the matches.  Every round consumes a match,
    so [fuel] rounds are enough for a string of [fuel] code units. *)
Fixpoint splitFrom (fuel : nat) (s : jstring) : list jstring :=
  match search s with
  | Some (before, url, after) =>
      match fuel with
      | S fuel' => before :: url :: splitFrom fuel' after
      | O => [s]
      end
  | None => [s]
  end.

Definition split (text : jstring) : list jstring :=
  splitFrom (length text) text.

(** What a part is rendered as: an anchor, with its [href] and its
    child text, or the bare string. *)
Inductive Rendered :=
  | Anchor (href : jstring) (children : jstring)
  | Plain (text : jstring).

(** [part.match(urlRegex)] is truthy when the part holds a match. *)
Definition formatMessageText (text : jstring) : list Rendered :=
  (λ part, if bool_decide (is_Some (search part))
           then Anchor part part else Plain part) <$> split text.

Definition shown (r : Rendered) : jstring :=
  match r with Anchor _ children => children | Plain text => text end.

Definition isAnchor (r : Rendered) : bool :=
  match r with Anchor _ _ => true | Plain _ => false end.

End ChatBot.

(** ** Voice agent *)

Module LiveVoiceAgent.

Inductive Status := disconnected | connecting | connected | error.

(** *** Browser objects the component holds in refs

    Each object is reduced to what the handlers below do to it. *)

Record AudioContext := { closed : bool }.
Record MediaStream := { tracksStopped : bool }.
Record MediaStreamAudioSourceNode := { source_connected : bool }.

(** The script processor, with its [onaudioprocess] handler.  The handler
    is a closure created once, by [startInputStream]; [handler_isMuted] is
    the [isMuted] binding that closure refers to. *)
Record ScriptProcessorNode := {
  processor_connected : bool;
  handler_isMuted : bool
}.

(** A decoded clip; [AudioBuffer.duration] is [length / sampleRate].
    Clock readings, start times and durations are rationals: the sums the
    scheduler forms are exact, where the browser rounds them to doubles. *)
Record AudioBuffer := {
  buffer_length : N;
  sampleRate : positive
}.

Definition duration (b : AudioBuffer) : Q :=
  Z.of_N (buffer_length b) # sampleRate b.

(** A buffer source node: the clip it plays, the time handed to [start],
    and whether [stop] has been called on it. *)
Record AudioBufferSourceNode := {
  buffer : AudioBuffer;
  startedAt : Q;
  stopped : bool
}.

Definition stop (n : AudioBufferSourceNode) : AudioBufferSourceNode :=
  {| buffer := buffer n; startedAt := startedAt n; stopped := true |}.

(** The wire blob of one capture buffer. *)
Record Blob := { data : jstring; mimeType : jstring }.

(** The promise [ai.live.connect] returns, as [then] sees it. *)
Inductive SessionPromise := Fulfilled | Rejected.
Inductive Session := LiveSession.

(** Functions the component calls and does not define: the built-in
    [encodeURIComponent] ([None]: it throws URIError), and
    [decodeAudioData] and [createPcmBlob] of [utils/audioUtils]
    ([None]: the decoding promise rejects). *)
Class Platform := {
  encodeURIComponent : option jstring → option jstring;
  decodeAudioData : jstring → option AudioBuffer;
  createPcmBlob : list Q → Blob
}.

(** *** Messages of the live connection *)

(** [serverContent]: the [interrupted] flag and
    [modelTurn?.parts?.[0]?.inlineData?.data]. *)
Record ServerContent := {
  interrupted : option bool;
  inlineData : option jstring
}.

(** [LiveServerMessage]; [toolCall] holds [toolCall.functionCalls]. *)
Record LiveServerMessage := {
  serverContent : option ServerContent;
  toolCall : option (list FunctionCall)
}.

(** [{ id, name, response: { result } }] *)
Record FunctionResponse := {
  fr_id : jstring;
  fr_name : jstring;
  fr_result : jstring
}.

(** What the component does to its collaborators, in order. *)
Inductive Event :=
  | OpenBookingForm (bookingData : BookingData)
  | SetWhatsappUrl (url : jstring)
  | SendToolResponse (functionResponses : list FunctionResponse)
  | SendRealtimeInputMedia (media : Blob)
  | SendRealtimeInputContent (text : jstring)
  | CancelAnimationFrame (handle : N).

(** *** The component's state *)

Record AudioRefs := {
  inputAudioContextRef : option AudioContext;
  outputAudioContextRef : option AudioContext;
  streamRef : option MediaStream;
  processorRef : option ScriptProcessorNode;
  sourceRef : option MediaStreamAudioSourceNode;
  animationFrameRef : option N
}.

(** The playback refs.  [sourcesRef] is the [Set] of playing nodes, held
    as the set of their indices in [nodes], the list of every buffer
    source created so far. *)
Record Playback := {
  nextStartTimeRef : Q;
  sourcesRef : gset nat;
  nodes : list AudioBufferSourceNode
}.

(** [closure_isMuted] is the [isMuted] binding of the render whose
    [startSession] opened the session: [startSession], its callbacks and
    [startInputStream] are closures of that render, and a later
    [setIsMuted] gives later renders a new binding without changing it. *)
Record Voice := {
  isConnected : bool;
  isMuted : bool;
  status : Status;
  whatsappUrl : jstring;
  audio : AudioRefs;
  playback : Playback;
  sessionRef : option Session;
  sessionPromiseRef : option SessionPromise;
  closure_isMuted : bool;
  trace : list Event
}.

Definition setIsConnected (v : bool) (s : Voice) : Voice :=
  {| isConnected := v; isMuted := isMuted s; status := status s;
     whatsappUrl := whatsappUrl s; audio := audio s; playback := playback s;
     sessionRef := sessionRef s; sessionPromiseRef := sessionPromiseRef s;
     closure_isMuted := closure_isMuted s; trace := trace s |}.

Definition setIsMuted (v : bool) (s : Voice) : Voice :=
  {| isConnected := isConnected s; isMuted := v; status := status s;
     whatsappUrl := whatsappUrl s; audio := audio s; playback := playback s;
     sessionRef := sessionRef s; sessionPromiseRef := sessionPromiseRef s;
     closure_isMuted := closure_isMuted s; trace := trace s |}.

Definition setStatus (v : Status) (s : Voice) : Voice :=
  {| isConnected := isConnected s; isMuted := isMuted s; status := v;
     whatsappUrl := whatsappUrl s; audio := audio s; playback := playback s;
     sessionRef := sessionRef s; sessionPromiseRef := sessionPromiseRef s;
     closure_isMuted := closure_isMuted s; trace := trace s |}.

Definition emit (e : Event) (s : Voice) : Voice :=
  {| isConnected := isConnected s; isMuted := isMuted s; status := status s;
     whatsappUrl := whatsappUrl s; audio := audio s; playback := playback s;
     sessionRef := sessionRef s; sessionPromiseRef := sessionPromiseRef s;
     closure_isMuted := closure_isMuted s; trace := trace s ++ [e] |}.

Definition setWhatsappUrl (v : jstring) (s : Voice) : Voice :=
  emit (SetWhatsappUrl v)
    {| isConnected := isConnected s; isMuted := isMuted s; status := status s;
       whatsappUrl := v; audio := audio s; playback := playback s;
       sessionRef := sessionRef s; sessionPromiseRef := sessionPromiseRef s;
       closure_isMuted := closure_isMuted s; trace := trace s |}.

Definition setAudio (v : AudioRefs) (s : Voice) : Voice :=
  {| isConnected := isConnected s; isMuted := isMuted s; status := status s;
     whatsappUrl := whatsappUrl s; audio := v; playback := playback s;
     sessionRef := sessionRef s; sessionPromiseRef := sessionPromiseRef s;
     closure_isMuted := closure_isMuted s; trace := trace s |}.

Definition setPlayback (v : Playback) (s : Voice) : Voice :=
  {| isConnected := isConnected s; isMuted := isMuted s; status := status s;
     whatsappUrl := whatsappUrl s; audio := audio s; playback := v;
     sessionRef := sessionRef s; sessionPromiseRef := sessionPromiseRef s;
     closure_isMuted := closure_isMuted s; trace := trace s |}.

Definition setSession (r : option Session) (p : option SessionPromise)
    (s : Voice) : Voice :=
  {| isConnected := isConnected s; isMuted := isMuted s; status := status s;
     whatsappUrl := whatsappUrl s; audio := audio s; playback := playback s;
     sessionRef := r; sessionPromiseRef := p;
     closure_isMuted := closure_isMuted s; trace := trace s |}.

Definition setClosure (v : bool) (s : Voice) : Voice :=
  {| isConnected := isConnected s; isMuted := isMuted s; status := status s;
     whatsappUrl := whatsappUrl s; audio := audio s; playback := playback s;
     sessionRef := sessionRef s; sessionPromiseRef := sessionPromiseRef s;
     closure_isMuted := v; trace := trace s |}.

(** [sessionPromiseRef.current?.then(session => ...)]: the callback runs
    when the ref holds a promise and that promise is fulfilled. *)
Definition thenSession (e : Event) (s : Voice) : Voice :=
  match sessionPromiseRef s with
  | Some Fulfilled => emit e s
  | _ => s
  end.

(** The component as first rendered. *)
Definition initial : Voice :=
  {| isConnected := false; isMuted := false; status := disconnected;
     whatsappUrl := js "https://wa.me/27817463629";
     audio := {| inputAudioContextRef := None; outputAudioContextRef := None;
                 streamRef := None; processorRef := None; sourceRef := None;
                 animationFrameRef := None |};
     playback := {| nextStartTimeRef := 0; sourcesRef := ∅; nodes := [] |};
     sessionRef := None; sessionPromiseRef := None;
     closure_isMuted := false; trace := [] |}.

(** *** Handlers *)

Section Handlers.

Context `{Platform}.

(** The callback of [message.toolCall.functionCalls.map]: the state after
    its side effect and the responses collected so far. *)
Definition respond (fc : FunctionCall) (st : Voice * list FunctionResponse)
  : Completion (Voice * list FunctionResponse) :=
  let '(s, responses) := st in
  if decide (fc_name fc = js "update_whatsapp_context") then
    let summary := fc_args fc !! "summary" in
    match encodeURIComponent summary with
    | Some encoded =>
        Normal (setWhatsappUrl (js "https://wa.me/27817463629?text=" ++ encoded) s,
                responses ++
                [ {| fr_id := fc_id fc; fr_name := fc_name fc;
                     fr_result := js "WhatsApp Link Updated successfully." |} ])
    | None => Abrupt st
    end
  else if decide (fc_name fc = js "open_booking_form") then
    let bookingData := bookingDataOf (fc_args fc) in
    Normal (emit (OpenBookingForm bookingData) s,
            responses ++
            [ {| fr_id := fc_id fc; fr_name := fc_name fc;
                 fr_result := js "Booking Form Opened/Updated on User Screen." |} ])
  else
    Normal (s, responses ++
               [ {| fr_id := fc_id fc; fr_name := fc_name fc;
                    fr_result := js "Unknown tool" |} ]).

(** Step 2 of [onmessage]: [if (message.toolCall) { ... }]. *)
Definition handleToolCall (message : LiveServerMessage) (s : Voice)
  : Completion Voice :=
  match toolCall message with
  | Some functionCalls =>
      match forOf respond functionCalls (s, []) with
      | Normal (s1, responses) => Normal (thenSession (SendToolResponse responses) s1)
      | Abrupt (s1, _) => Abrupt s1
      end
  | None => Normal s
  end.

(** Step 1 of [onmessage], the body of [if (serverContent?.interrupted)]:
    every node of the set is stopped, the set is cleared, and the cursor is
    set to the output context's [currentTime] when there is a context. *)
Definition interrupt (currentTime : Q) (s : Voice) : Voice :=
  let p := playback s in
  setPlayback
    {| nextStartTimeRef :=
         match outputAudioContextRef (audio s) with
         | Some _ => currentTime
         | None => nextStartTimeRef p
         end;
       sourcesRef := ∅;
       nodes := set_fold (λ i ns, alter stop i ns) (nodes p) (sourcesRef p) |}
    s.

(** Step 3 of [onmessage] after [await decodeAudioData(...)]: the clip is
    started at [max(nextStartTime, currentTime)], the cursor advances by
    its duration, and its node joins the set. *)
Definition schedule (audioBuffer : AudioBuffer) (currentTime : Q) (s : Voice)
  : Voice :=
  let p := playback s in
  let nextStartTime := Qmax (nextStartTimeRef p) currentTime in
  let source := {| buffer := audioBuffer; startedAt := nextStartTime;
                   stopped := false |} in
  setPlayback
    {| nextStartTimeRef := nextStartTime + duration audioBuffer;
       sourcesRef := {[ length (nodes p) ]} ∪ sourcesRef p;
       nodes := nodes p ++ [source] |}
    s.

(** [source.onended = () => sourcesRef.current.delete(source)] *)
Definition onended (i : nat) (s : Voice) : Voice :=
  let p := playback s in
  setPlayback
    {| nextStartTimeRef := nextStartTimeRef p;
       sourcesRef := sourcesRef p ∖ {[ i ]};
       nodes := nodes p |}
    s.

(** Where a run of [onmessage] stands when it first gives up control: it
    has returned, it has thrown, or it waits for [decodeAudioData]. *)
Inductive Suspension :=
  | Returned (s : Voice)
  | Threw (s : Voice)
  | Awaiting (base64Audio : jstring) (s : Voice).

(** [onmessage] up to its [await]; [currentTime] is the output context's
    clock when the message is handled. *)
Definition onmessage_begin (message : LiveServerMessage) (currentTime : Q)
    (s : Voice) : Suspension :=
  if bool_decide (serverContent message ≫= interrupted = Some true) then
    Returned (interrupt currentTime s)
  else
    match handleToolCall message s with
    | Abrupt s1 => Threw s1
    | Normal s1 =>
        match serverContent message ≫= inlineData with
        | Some base64Audio =>
            if truthy base64Audio
               && bool_decide (is_Some (outputAudioContextRef (audio s1)))
            then Awaiting base64Audio s1
            else Returned s1
        | None => Returned s1
        end
    end.

(** [onmessage] from its [await] on; [currentTime] is the clock then. *)
Definition onmessage_resume (base64Audio : jstring) (currentTime : Q)
    (s : Voice) : Voice :=
  match decodeAudioData base64Audio with
  | Some audioBuffer => schedule audioBuffer currentTime s
  | None => s
  end.

(** A run of [onmessage] that no other handler interleaves with. *)
Definition onmessage (message : LiveServerMessage) (t0 t1 : Q) (s : Voice)
  : Voice :=
  match onmessage_begin message t0 s with
  | Returned s1 | Threw s1 => s1
  | Awaiting base64Audio s1 => onmessage_resume base64Audio t1 s1
  end.

(** [processor.onaudioprocess]: the flag it tests is the binding its
    closure holds. *)
Definition onaudioprocess (inputData : list Q) (s : Voice) : Voice :=
  match processorRef (audio s) with
  | Some processor =>
      if handler_isMuted processor then s
      else
        let pcmBlob := createPcmBlob inputData in
        thenSession (SendRealtimeInputMedia pcmBlob) s
  | None => s
  end.

(** [toggleMute], bound anew by every render: [setIsMuted(!isMuted)]. *)
Definition toggleMute (s : Voice) : Voice := setIsMuted (negb (isMuted s)) s.

Definition handleDisconnect (s : Voice) : Voice :=
  let a := audio s in
  let s1 := setStatus disconnected (setIsConnected false s) in
  let s2 :=
    setAudio
      {| streamRef := (λ _, {| tracksStopped := true |}) <$> streamRef a;
         sourceRef := (λ _, {| source_connected := false |}) <$> sourceRef a;
         processorRef :=
           (λ p, {| processor_connected := false;
                    handler_isMuted := handler_isMuted p |}) <$> processorRef a;
         inputAudioContextRef :=
           (λ _, {| closed := true |}) <$> inputAudioContextRef a;
         outputAudioContextRef :=
           (λ _, {| closed := true |}) <$> outputAudioContextRef a;
         animationFrameRef := animationFrameRef a |}
      s1 in
  let s3 :=
    match animationFrameRef a with
    | Some handle =>
        if (handle =? 0)%N then s2 else emit (CancelAnimationFrame handle) s2
    | None => s2
    end in
  setSession None None s3.

Definition onclose (s : Voice) : Voice := handleDisconnect s.

Definition onerror (s : Voice) : Voice := setStatus error s.

Definition startInputStream (granted : bool) (s : Voice) : Voice :=
  let a := audio s in
  if negb (bool_decide (is_Some (inputAudioContextRef a)))
     || negb (bool_decide (is_Some (sessionPromiseRef s)))
  then s
  else if granted then
    setAudio
      {| streamRef := Some {| tracksStopped := false |};
         sourceRef := Some {| source_connected := true |};
         processorRef :=
           Some {| processor_connected := true;
                   handler_isMuted := closure_isMuted s |};
         inputAudioContextRef := inputAudioContextRef a;
         outputAudioContextRef := outputAudioContextRef a;
         animationFrameRef := animationFrameRef a |}
      s
  else s.

(** The [onopen] callback; [granted] tells whether [getUserMedia]
    resolves. *)
Definition onopen (granted : bool) (s : Voice) : Voice :=
  let s1 := setIsConnected true (setStatus connected s) in
  let s2 := startInputStream granted s1 in
  thenSession
    (SendRealtimeInputContent
       (js "System: User connected. Introduce yourself warmly as Tumelo and ask for their name."))
    s2.

(** [startSession]; [API_KEY] is [process.env.API_KEY] and [connects] tells
    whether [ai.live.connect] resolves. *)
Definition startSession (API_KEY : option jstring) (connects : bool)
    (s : Voice) : Voice :=
  let s1 := setStatus connecting s in
  if negb (from_option truthy false API_KEY) then setStatus error s1
  else
    let a := audio s1 in
    let s2 :=
      setAudio
        {| inputAudioContextRef := Some {| closed := false |};
           outputAudioContextRef := Some {| closed := false |};
           streamRef := streamRef a; processorRef := processorRef a;
           sourceRef := sourceRef a;
           animationFrameRef := animationFrameRef a |}
        s1 in
    let s3 := setClosure (isMuted s) s2 in
    if connects then setSession (Some LiveSession) (Some Fulfilled) s3
    else setStatus error (setSession (sessionRef s3) (Some Rejected) s3).

(** A batch of clips handed to [schedule] one after the other, each with
    the clock reading of its call. *)
Definition scheduleAll (clips : list (AudioBuffer * Q)) (s : Voice) : Voice :=
  fold_left (λ s clip, schedule clip.1 clip.2 s) clips s.

(** The component as a machine: the handlers the browser, the connection
    and the user can run, each with what the environment hands it. *)
Inductive VoiceEvent :=
  | StartSession (API_KEY : option jstring) (connects : bool)
  | Open (granted : bool)
  | Message (message : LiveServerMessage) (t0 t1 : Q)
  | AudioProcess (inputData : list Q)
  | NodeEnded (i : nat)
  | ToggleMute
  | Disconnect
  | Close
  | Error.

Definition handle (s : Voice) (e : VoiceEvent) : Voice :=
  match e with
  | StartSession API_KEY connects => startSession API_KEY connects s
  | Open granted => onopen granted s
  | Message message t0 t1 => onmessage message t0 t1 s
  | AudioProcess inputData => onaudioprocess inputData s
  | NodeEnded i => onended i s
  | ToggleMute => toggleMute s
  | Disconnect => handleDisconnect s
  | Close => onclose s
  | Error => onerror s
  end.

Definition run (events : list VoiceEvent) (s : Voice) : Voice :=
  fold_left handle events s.

(** The window of a node, as the code computes it, runs from the time
    handed to [start] to the cursor that [nextStartTimeRef.current +=
    audioBuffer.duration] left when the node was scheduled.  [logged]
    extends a log of those cursors when a step has created a node, and
    [windowEnds] is the log of a run: its [i]-th entry belongs to the
    [i]-th node. *)
Definition logged (s s' : Voice) (log : list Q) : list Q :=
  if (length (nodes (playback s)) <? length (nodes (playback s')))%nat
  then log ++ [nextStartTimeRef (playback s')]
  else log.

Fixpoint windowEnds (events : list VoiceEvent) (s : Voice) (log : list Q)
  : list Q :=
  match events with
  | [] => log
  | e :: events' => windowEnds events' (handle s e) (logged s (handle s e) log)
  end.

(** What the agent answers to an invocation, and what the invocation
    does to the collaborators, tool by tool. *)
Definition resultOf (fc : FunctionCall) : jstring :=
  if decide (fc_name fc = js "update_whatsapp_context")
  then js "WhatsApp Link Updated successfully."
  else if decide (fc_name fc = js "open_booking_form")
  then js "Booking Form Opened/Updated on User Screen."
  else js "Unknown tool".

Definition responseOf (fc : FunctionCall) : FunctionResponse :=
  {| fr_id := fc_id fc; fr_name := fc_name fc; fr_result := resultOf fc |}.

Definition effectOf (fc : FunctionCall) : list Event :=
  if decide (fc_name fc = js "update_whatsapp_context")
  then [ SetWhatsappUrl
           (js "https://wa.me/27817463629?text="
            ++ default [] (encodeURIComponent (fc_args fc !! "summary"))) ]
  else if decide (fc_name fc = js "open_booking_form")
  then [ OpenBookingForm (bookingDataOf (fc_args fc)) ]
  else [].

(** An invocation whose [map] callback returns. *)
Definition answerable (fc : FunctionCall) : Prop :=
  fc_name fc = js "update_whatsapp_context" →
  is_Some (encodeURIComponent (fc_args fc !! "summary")).

End Handlers.

(** *** Vocabulary of the voice agent's properties *)

(** The start of a node advanced by the duration of its clip: in this
    model, the cursor that the [schedule] step of the node leaves. *)
Definition endsAt (n : AudioBufferSourceNode) : Q :=
  startedAt n + duration (buffer n).

(** The instant [t] lies in the window that starts at [from] and ends
    before [until]. *)
Definition within (t from until : Q) : Prop :=
  (from <= t)%Q ∧ (t < until)%Q.

(** The playback refs hang together with the log of window ends: every
    node has its entry; the active set names nodes that exist; the window
    of an active node ends no earlier than it starts and no later than the
    cursor; and the windows of two active nodes share no instant. *)
Definition scheduledBy (log : list Q) (s : Voice) : Prop :=
  let p := playback s in
  length log = length (nodes p)
  ∧ (∀ i, i ∈ sourcesRef p → (i < length (nodes p))%nat)
  ∧ (∀ i n u, i ∈ sourcesRef p → nodes p !! i = Some n → log !! i = Some u →
              (startedAt n <= u)%Q ∧ (u <= nextStartTimeRef p)%Q)
  ∧ (∀ i j a b u v, i ≠ j → i ∈ sourcesRef p → j ∈ sourcesRef p →
                    nodes p !! i = Some a → nodes p !! j = Some b →
                    log !! i = Some u → log !! j = Some v →
                    ¬ ∃ t, within t (startedAt a) u ∧ within t (startedAt b) v).

(** The events of a trace that go to the service. *)
Definition sentToService (t : list Event) : list Event :=
  List.filter (λ e, match e with
                    | SendToolResponse _ | SendRealtimeInputMedia _
                    | SendRealtimeInputContent _ => true
                    | _ => false
                    end) t.

(** An invocation of one of the two tools the agent declares. *)
Definition recognised (fc : FunctionCall) : bool :=
  bool_decide (fc_name fc = js "update_whatsapp_context")
  || bool_decide (fc_name fc = js "open_booking_form").

(** How many side effects a trace holds: drafts forwarded to the form and
    updates of the contact link. *)
Definition sideEffects (t : list Event) : nat :=
  length (List.filter (λ e, match e with
                            | OpenBookingForm _ | SetWhatsappUrl _ => true
                            | _ => false
                            end) t).

(** A stand-in for the platform in concrete runs: [encodeURIComponent] on
    text of unreserved characters (which it returns as it is), a decoder
    that yields one frame per code unit at 24 kHz, and an encoder whose
    blob carries no samples. *)
Definition samplePlatform : Platform :=
  {| encodeURIComponent := λ v, Some (default (js "undefined") v);
     decodeAudioData := λ d,
       Some {| buffer_length := N.of_nat (length d); sampleRate := 24000 |};
     createPcmBlob := λ _,
       {| data := []; mimeType := js "audio/pcm;rate=16000" |} |}.

(** The stand-in platform with an [encodeURIComponent] that throws on the
    lone surrogate U+D800, as the built-in does. *)
Definition throwingPlatform : Platform :=
  {| encodeURIComponent := λ v,
       if bool_decide (v = Some [55296%N]) then None
       else Some (default (js "undefined") v);
     decodeAudioData := λ d,
       Some {| buffer_length := N.of_nat (length d); sampleRate := 24000 |};
     createPcmBlob := λ _,
       {| data := []; mimeType := js "audio/pcm;rate=16000" |} |}.

(** A session that was opened, connected and granted the microphone. *)
Definition liveSession : Voice :=
  onopen true (startSession (Some (js "key")) true initial).

Definition oneSecond : AudioBuffer :=
  {| buffer_length := 24000; sampleRate := 24000 |}.

(** The live session with two one-second clips scheduled at time 0: one
    playing, one queued behind it. *)
Definition playing : Voice :=
  scheduleAll [ (oneSecond, 0%Q); (oneSecond, 0%Q) ] liveSession.

(** An interruption that also carries audio and a tool invocation. *)
Definition bargeIn : LiveServerMessage :=
  {| serverContent :=
       Some {| interrupted := Some true; inlineData := Some (js "AAAA") |};
     toolCall := Some [ callOf "call-1" "open_booking_form" [] ] |}.

(** A message that carries one invocation of the booking tool. *)
Definition booking : LiveServerMessage :=
  {| serverContent := None;
     toolCall :=
       Some [ callOf "call-1" "open_booking_form" [("name", js "Sam")] ] |}.

(** A message that carries that invocation, id included, twice. *)
Definition replay : LiveServerMessage :=
  {| serverContent := None;
     toolCall :=
       Some [ callOf "call-1" "open_booking_form" [("name", js "Sam")];
              callOf "call-1" "open_booking_form" [("name", js "Sam")] ] |}.

(** A message that carries a clip of four frames and nothing else. *)
Definition spoken : LiveServerMessage :=
  {| serverContent :=
       Some {| interrupted := None; inlineData := Some (js "AAAA") |};
     toolCall := None |}.

(** A session that is opened, plays two clips one after the other, and
    hears the first of them end. *)
Definition conversation : list VoiceEvent :=
  [ StartSession (Some (js "key")) true; Open true;
    Message spoken 0 0; Message spoken 0 0; NodeEnded 0 ].

(** A session opened again after the user muted and closed the panel. *)
Definition reopenedMuted : Voice :=
  onopen true
    (startSession (Some (js "key")) true
       (handleDisconnect (toggleMute liveSession))).

(** *** The effects of the component *)

#[export] Instance Status_eq_dec : EqDecision Status.
Proof. solve_decision. Defined.

(** The effect on [isOpen]: the panel opening starts a session when the
    component is disconnected, and the panel closing disconnects a
    connected one.  [API_KEY] and [connects] are what [startSession]
    finds. *)
Definition openEffect (API_KEY : option jstring) (connects : bool)
    (s : Voice) (isOpen : bool) : Voice :=
  if isOpen && negb (isConnected s) && bool_decide (status s = disconnected)
  then startSession API_KEY connects s
  else if negb isOpen && isConnected s
  then handleDisconnect s
  else s.

(** The panel opened and closed in turn, each change running the effect. *)
Definition toggled (API_KEY : option jstring) (connects : bool)
    (changes : list bool) (s : Voice) : Voice :=
  fold_left (openEffect API_KEY connects) changes s.

(** *** The visualiser's level, as [draw] computes it

    [dataArray] is the [Uint8Array] of frequency bins.  The products and
    quotients are exact here, where [draw] forms them in doubles. *)

Definition sum (dataArray : list Byte.byte) : Q :=
  fold_left (λ sum b, sum + inject_Z (Z.of_N (Byte.to_N b)))%Q dataArray 0%Q.

(** [average / 128], with [average = sum / bufferLength]. *)
Definition normalized (dataArray : list Byte.byte) : Q :=
  (sum dataArray / inject_Z (Z.of_nat (length dataArray)) / 128)%Q.

(** [1 + (normalized * 0.15)], the factor of [scale(...)]. *)
Definition scale (dataArray : list Byte.byte) : Q :=
  (1 + normalized dataArray * (15 # 100))%Q.

(** [normalized * 20], added to the radius 10 of the drop shadow. *)
Definition glow (dataArray : list Byte.byte) : Q :=
  (normalized dataArray * 20)%Q.

(** [0.5 + (normalized * 0.5)], the alpha of the drop shadow's colour. *)
Definition glowAlpha (dataArray : list Byte.byte) : Q :=
  ((1 # 2) + normalized dataArray * (1 # 2))%Q.

End LiveVoiceAgent.

(** * Properties *)

(** ** Loops that may throw *)

(** A loop that ends normally has added to a trace what its iterations
    add, in order. *)
Lemma forOf_trace {A B E} (tr : A → list E) (ev : B → list E)
    (body : B → A → Completion A) :
  (∀ x a a', body x a = Normal a' → tr a' = tr a ++ ev x) →
  ∀ l a a', forOf body l a = Normal a' → tr a' = tr a ++ concat (ev <$> l).
Proof.
  intros Hbody l. induction l as [|x l IH]; intros a a'; simpl.
  - intros [= <-]. by rewrite app_nil_r.
  - destruct (body x a) as [a1|a1] eqn:E1; [|done].
    intros E2. rewrite (IH _ _ E2), (Hbody _ _ _ E1). by rewrite app_assoc.
Qed.

(** ** The history sanitiser *)

Section Sanitizer.

Import ChatBot.

Lemma flipRole_involutive r : flipRole (flipRole r) = r.
Proof. by destruct r. Qed.

Lemma alternatesFrom_cons r x l :
  alternatesFrom r (x :: l)
  = bool_decide (x = r) && alternatesFrom (flipRole r) l.
Proof. reflexivity. Qed.

Lemma alternatesFrom_snoc r l :
  alternatesFrom r l = true →
  alternatesFrom r (l ++ [expects r l]) = true.
Proof.
  revert r; induction l as [|x l IH]; intros r; simpl.
  - by rewrite bool_decide_eq_true_2.
  - rewrite !andb_true_iff. intros [Hx Hl]. split; [done|]. by apply IH.
Qed.

Lemma expects_snoc r l x : expects r (l ++ [x]) = flipRole (expects r l).
Proof. unfold expects. by rewrite fold_left_app. Qed.

Lemma alternatesFrom_removelast r l :
  alternatesFrom r l = true → alternatesFrom r (removelast l) = true.
Proof.
  revert r; induction l as [|x l IH]; intros r; [done|].
  destruct l as [|y l]; [by intros _|].
  change (removelast (x :: y :: l)) with (x :: removelast (y :: l)).
  rewrite !(alternatesFrom_cons r x), !andb_true_iff.
  intros [Hx Hl]. split; [done|]. by apply IH.
Qed.

(** In an alternating list, the last role is the opposite of the role
    expected next. *)
Lemma alternatesFrom_last r l x :
  alternatesFrom r l = true → last l = Some x → x = flipRole (expects r l).
Proof.
  revert r; induction l as [|y l IH]; intros r; [done|].
  simpl. rewrite andb_true_iff, bool_decide_eq_true. intros [-> Hl].
  destruct l as [|z l].
  - intros [= <-]. by destruct r.
  - intros Hlast. by apply IH.
Qed.

(** The loop invariant of the [forEach]: the roles collected so far
    alternate from [user], and [expectedRole] is the role they call for. *)
Lemma walk_invariant (l : list Message) (validHistory : list Content) :
  alternatesFrom user (content_role <$> validHistory) = true →
  let st := fold_left walkStep l
              (validHistory, expects user (content_role <$> validHistory)) in
  alternatesFrom user (content_role <$> st.1) = true
  ∧ st.2 = expects user (content_role <$> st.1).
Proof.
  revert validHistory; induction l as [|msg l IH]; intros vh Hvh; [done|].
  simpl. destruct (decide _) as [Heq|]; [|by apply IH].
  match goal with |- context [vh ++ [?c']] => set (c := c') end.
  assert (expects user (content_role <$> vh ++ [c])
          = flipRole (expects user (content_role <$> vh))) as E.
  { rewrite fmap_app. apply expects_snoc. }
  rewrite <- E. apply IH.
  rewrite fmap_app. change (content_role <$> [c]) with [msg_role msg].
  rewrite Heq. by apply alternatesFrom_snoc.
Qed.

Lemma walk_alternates (messages : list Message) :
  alternatesFrom user (content_role <$> (walk messages).1) = true.
Proof. by apply (walk_invariant (historyMessages messages) []). Qed.

(** [initChat] creates the session with the sanitised history. *)
Lemma initChat_submits_sanitized_history (API_KEY : jstring) (c : Chat) :
  truthy API_KEY = true →
  chatSession (initChat (Some API_KEY) c)
  = Some {| history := sanitize (messages c) |}.
Proof. intros Hkey. unfold initChat. simpl. by rewrite Hkey. Qed.

Lemma last_removelast_snoc {A} (l : list A) (x : A) :
  last l = Some x → l = removelast l ++ [x].
Proof.
  intros Hl. destruct (decide (l = [])) as [->|Hne]; [done|].
  rewrite (app_removelast_last x Hne) at 1. f_equal. f_equal.
  rewrite last_lookup in Hl.
  destruct l as [|y l] using rev_ind; [done|].
  rewrite List.last_last.
  rewrite length_app, Nat.add_1_r in Hl. simpl in Hl.
  rewrite lookup_app_r, Nat.sub_diag in Hl by lia. by injection Hl.
Qed.

Lemma fmap_removelast {A B} (f : A → B) (l : list A) :
  f <$> removelast l = removelast (f <$> l).
Proof.
  induction l as [|x [|y l] IH]; [done..|].
  change (removelast (x :: y :: l)) with (x :: removelast (y :: l)).
  rewrite !fmap_cons.
  change (removelast (f x :: f y :: (f <$> l)))
    with (f x :: removelast (f y :: (f <$> l))).
  f_equal. apply IH.
Qed.

(** Popping a trailing [user] turn leaves a list that is empty or ends on
    [model]. *)
Lemma pop_ends_on_model (l : list Role) :
  alternatesFrom user l = true → last l = Some user →
  last (removelast l) ≠ Some user.
Proof.
  intros Halt Hlast Hpop.
  pose proof (alternatesFrom_last _ _ _ Halt Hlast) as H1.
  pose proof (alternatesFrom_last _ _ _
                (alternatesFrom_removelast _ _ Halt) Hpop) as H2.
  rewrite (last_removelast_snoc _ _ Hlast), expects_snoc in H1.
  destruct (expects user (removelast l)); done.
Qed.

(** C1.  For every persisted turn log, the history [initChat] submits
    alternates roles strictly, starting with [user], and does not end on a
    [user] turn: when the walk's result ends on [user], the submitted
    history is that result without its final turn, and otherwise it is the
    result itself. *)
Theorem sanitize_alternates_and_never_ends_on_user (messages : list Message) :
  let validHistory := (walk messages).1 in
  alternatesFrom user (content_role <$> sanitize messages) = true
  ∧ content_role <$> last (sanitize messages) ≠ Some user
  ∧ (endsOnUser validHistory = true →
       ∃ c, content_role c = user ∧ validHistory = sanitize messages ++ [c])
  ∧ (endsOnUser validHistory = false → sanitize messages = validHistory).
Proof.
  intros vh. pose proof (walk_alternates messages) as Halt. fold vh in Halt.
  unfold sanitize. fold vh. unfold endsOnUser.
  destruct (last vh) as [c|] eqn:Hlast; simpl.
  2:{ rewrite Hlast. by repeat split. }
  destruct (bool_decide_reflect (content_role c = user)) as [Hc|Hc].
  - split_and!; [| |intros _; exists c; split; [done|]|done].
    + rewrite fmap_removelast. by apply alternatesFrom_removelast.
    + rewrite <- fmap_last, fmap_removelast.
      apply pop_ends_on_model; [done|].
      by rewrite fmap_last, Hlast; simpl; rewrite Hc.
    + by apply last_removelast_snoc.
  - rewrite Hlast. simpl. split_and!; [done| |done|done].
    intros [= ?]. done.
Qed.

End Sanitizer.

(** ** The text chat's stream consumption *)

Section TextStream.

Import ChatBot.

Variable followUp : nat → option jstring.
Variable botMsgId : jstring.

Local Abbreviation answered := (answered followUp).
Local Abbreviation placeholderShows := (placeholderShows botMsgId).

Lemma last_withText (full t : jstring) (prev : list Message) :
  last prev = Some {| msg_id := botMsgId; msg_role := model; msg_text := t |} →
  last (withText botMsgId full prev)
  = Some {| msg_id := botMsgId; msg_role := model; msg_text := full |}.
Proof.
  intros Hlast. unfold withText. rewrite fmap_last, Hlast. simpl.
  by rewrite decide_True.
Qed.

Lemma handleCall_answered (call : option FunctionCall) (st : Loop) :
  placeholderShows st →
  ∃ st', handleCall answered botMsgId call st = Normal st'
    ∧ placeholderShows st'
    ∧ fullResponseText st'
      = fullResponseText st
        ++ (if isBookingCall call then default [] (followUp (acks st)) else [])
    ∧ acks st' = (acks st + (if isBookingCall call then 1 else 0))%nat.
Proof.
  intros Hst. unfold handleCall, isBookingCall.
  destruct call as [call|].
  2:{ exists st. rewrite app_nil_r. split_and!; [done..|lia]. }
  destruct (decide _) as [Hname|Hname].
  2:{ exists st. rewrite bool_decide_eq_false_2, app_nil_r by done.
      split_and!; [done..|lia]. }
  rewrite bool_decide_eq_true_2 by done. unfold ChatBot.answered. simpl.
  destruct (followUp (acks st)) as [[|ch t]|]; simpl;
    eexists; (split; [reflexivity|]); simpl;
    rewrite ?app_nil_r; (split_and!; [|done|lia]).
  - apply Hst.
  - unfold placeholderShows in *. simpl. by eapply last_withText.
  - apply Hst.
Qed.

Lemma calls_answered (calls : list (option FunctionCall)) (st : Loop) :
  placeholderShows st →
  ∃ st', forOf (handleCall answered botMsgId) calls st = Normal st'
    ∧ placeholderShows st'
    ∧ fullResponseText st'
      = fullResponseText st
        ++ concat ((λ i, default [] (followUp (acks st + i)%nat))
                   <$> seq 0 (length (List.filter isBookingCall calls)))
    ∧ acks st' = (acks st + length (List.filter isBookingCall calls))%nat.
Proof.
  revert st; induction calls as [|call calls IH]; intros st Hst.
  - exists st. simpl. rewrite app_nil_r. split_and!; [done..|lia].
  - destruct (handleCall_answered call st Hst) as (st1 & E1 & H1 & T1 & A1).
    destruct (IH st1 H1) as (st2 & E2 & H2 & T2 & A2).
    exists st2. cbn [forOf]. rewrite E1. split; [done|]. split; [done|].
    cbn [List.filter]. destruct (isBookingCall call).
    + split; [|simpl; lia].
      rewrite T2, T1, A1. cbn [length seq fmap list_fmap concat].
      rewrite <- seq_shift, <- list_fmap_compose, Nat.add_0_r, <- !app_assoc.
      do 3 f_equal. apply list_fmap_ext. intros ? i ?. simpl.
      do 2 f_equal. lia.
    + split; [|lia]. rewrite T2, T1, A1, app_nil_r, Nat.add_0_r. done.
Qed.

(** One fragment: the follow-up texts of its tool exchanges are appended
    first, its own text after them. *)
Lemma handleChunk_answered (c : Chunk) (st : Loop) :
  placeholderShows st →
  ∃ st', handleChunk answered botMsgId c st = Normal st'
    ∧ placeholderShows st'
    ∧ fullResponseText st'
      = fullResponseText st
        ++ concat ((λ i, default [] (followUp (acks st + i)%nat))
                   <$> seq 0 (bookingCallsIn c))
        ++ default [] (chunk_text c)
    ∧ acks st' = (acks st + bookingCallsIn c)%nat.
Proof.
  intros Hst. unfold handleChunk, bookingCallsIn.
  assert (∃ st1,
    match functionCallsOf c with
    | Some functionCalls =>
        if (0 <? length functionCalls)%nat
        then forOf (handleCall answered botMsgId) functionCalls st
        else Normal st
    | None => Normal st
    end = Normal st1
    ∧ placeholderShows st1
    ∧ fullResponseText st1
      = fullResponseText st
        ++ concat ((λ i, default [] (followUp (acks st + i)%nat))
                   <$> seq 0 (length (List.filter isBookingCall
                                        (default [] (functionCallsOf c)))))
    ∧ acks st1 = (acks st + length (List.filter isBookingCall
                                      (default [] (functionCallsOf c))))%nat)
    as (st1 & -> & H1 & T1 & A1).
  { destruct (functionCallsOf c) as [[|call calls]|]; simpl.
    - exists st. rewrite app_nil_r. split_and!; [done..|lia].
    - apply (calls_answered (call :: calls) st Hst).
    - exists st. rewrite app_nil_r. split_and!; [done..|lia]. }
  eexists. split; [reflexivity|]. simpl. split_and!.
  - unfold placeholderShows in *. simpl. by eapply last_withText.
  - by rewrite T1, <- app_assoc.
  - done.
Qed.

Lemma chunks_answered (fragments : list Chunk) (st : Loop) :
  placeholderShows st →
  ∃ st', forOf (handleChunk answered botMsgId) fragments st = Normal st'
    ∧ placeholderShows st'
    ∧ fullResponseText st'
      = fullResponseText st ++ narrative followUp (acks st) fragments.
Proof.
  revert st; induction fragments as [|c rest IH]; intros st Hst.
  - exists st. simpl. by rewrite app_nil_r.
  - destruct (handleChunk_answered c st Hst) as (st1 & E1 & H1 & T1 & A1).
    destruct (IH st1 H1) as (st2 & E2 & H2 & T2).
    exists st2. cbn [forOf narrative]. rewrite E1. split; [done|]. split; [done|].
    by rewrite T2, T1, A1, <- !app_assoc.
Qed.

(** Whatever the service replies, a call adds [callEvents] to the trace:
    the draft is forwarded and the result sent before the reply is
    awaited. *)
Lemma handleCall_trace (toolReply : nat → Reply) (call : option FunctionCall)
    (st : Loop) :
  ChatBot.trace (loop_chat (outcome (handleCall toolReply botMsgId call st)))
  = ChatBot.trace (loop_chat st) ++ callEvents call.
Proof.
  unfold handleCall, callEvents, isBookingCall.
  destruct call as [call|]; [|by rewrite app_nil_r].
  destruct (decide _) as [Hname|Hname].
  2:{ by rewrite bool_decide_eq_false_2, app_nil_r. }
  rewrite bool_decide_eq_true_2 by done.
  destruct (toolReply (acks st)) as [[[|ch t]|]|]; simpl;
    by rewrite <- app_assoc.
Qed.

Lemma handleChunk_trace (toolReply : nat → Reply) (c : Chunk) (st st' : Loop) :
  handleChunk toolReply botMsgId c st = Normal st' →
  ChatBot.trace (loop_chat st') = ChatBot.trace (loop_chat st) ++ chunkEvents c.
Proof.
  unfold handleChunk, chunkEvents.
  set (tr := λ st : Loop, ChatBot.trace (loop_chat st)).
  assert (∀ calls st1, forOf (handleCall toolReply botMsgId) calls st = Normal st1 →
            tr st1 = tr st ++ concat (callEvents <$> calls)) as Hcalls.
  { intros calls st1. apply (forOf_trace tr callEvents). intros x a a' E.
    unfold tr. by rewrite <- (handleCall_trace toolReply x a), E. }
  destruct (functionCallsOf c) as [[|call calls]|]; simpl.
  - intros [= <-]. simpl. by rewrite app_nil_r.
  - destruct (handleCall toolReply botMsgId call st) as [a|a] eqn:E1; [|done].
    destruct (forOf _ calls a) as [st1|st1] eqn:E2; [|done].
    intros [= <-]. simpl.
    apply (Hcalls (call :: calls) st1). simpl. by rewrite E1.
  - intros [= <-]. simpl. by rewrite app_nil_r.
Qed.

End TextStream.

Section TextChat.

Import ChatBot.

(** A submission that is accepted, answered at every tool result and
    streamed to its end: the loop ends normally, and its final variables
    give the placeholder's text and the trace. *)
Lemma handleSendMessage_answered
    (followUp : nat → option jstring) (text : jstring) (now1 now2 : N)
    (fragments : list Chunk) (c : Chat) :
  truthy (trim text) = true →
  is_Some (chatSession c) →
  isLoading c = false →
  let c' := handleSendMessage text now1 now2
              (Some {| chunks := fragments; breaks := false |})
              (answered followUp) c in
  last (messages c')
  = Some {| msg_id := toString (now2 + 1); msg_role := model;
            msg_text := narrative followUp 0 fragments |}
  ∧ ChatBot.trace c'
    = ChatBot.trace c ++ SendMessageStream text :: concat (chunkEvents <$> fragments).
Proof.
  intros Htext Hsession Hidle. unfold handleSendMessage.
  rewrite Htext, Hidle, bool_decide_eq_true_2 by done. cbn [negb orb].
  cbv zeta. cbn [chunks breaks].
  match goal with
  | |- context [forOf ?body fragments ?st0] =>
      destruct (chunks_answered followUp (toString (now2 + 1)) fragments st0)
        as (st' & E & Hshows & Htxt);
      [|pose proof (forOf_trace (λ st, ChatBot.trace (loop_chat st)) chunkEvents
                      body (handleChunk_trace _ _) _ _ _ E) as Htrace]
  end.
  { unfold placeholderShows. simpl. by rewrite last_snoc. }
  simpl in E, Htrace |- *. rewrite E. simpl. split.
  - rewrite Hshows. by rewrite Htxt.
  - rewrite Htrace. by rewrite <- app_assoc.
Qed.

(** C6.  When the service answers every tool result and the stream ends
    normally, the placeholder agent turn ends up showing the fragments'
    contributions in receipt order, each fragment contributing the
    follow-up texts of its tool exchanges first and its own text after
    them; so a follow-up text stands before its fragment's own text and
    before the text of every later fragment. *)
Theorem continuation_text_precedes_fragment_text
    (followUp : nat → option jstring) (text : jstring) (now1 now2 : N)
    (fragments : list Chunk) (c : Chat) :
  truthy (trim text) = true →
  is_Some (chatSession c) →
  isLoading c = false →
  let c' := handleSendMessage text now1 now2
              (Some {| chunks := fragments; breaks := false |})
              (answered followUp) c in
  last (messages c')
  = Some {| msg_id := toString (now2 + 1); msg_role := model;
            msg_text := narrative followUp 0 fragments |}.
Proof.
  intros Htext Hsession Hidle.
  apply (handleSendMessage_answered followUp text now1 now2 fragments c);
    assumption.
Qed.

End TextChat.

(** ** The voice agent's playback *)

Section Playback.

Import LiveVoiceAgent.

Context `{Platform}.

Lemma duration_nonneg (b : AudioBuffer) : (0 <= duration b)%Q.
Proof. unfold duration, Qle. simpl. lia. Qed.

(** Stopping the nodes of a set: the nodes of the set are stopped, the
    others are as they were. *)
Lemma stop_all_lookup (active : gset nat) (ns : list AudioBufferSourceNode)
    (i : nat) :
  set_fold (λ i ns, alter stop i ns) ns active !! i
  = if decide (i ∈ active) then stop <$> ns !! i else ns !! i.
Proof.
  revert i.
  refine (set_fold_ind_L (λ (r : list AudioBufferSourceNode) (X : gset nat),
            ∀ i, r !! i = if decide (i ∈ X) then stop <$> ns !! i else ns !! i)
            _ _ _ _ active).
  - intros i. rewrite decide_False; [done|]. apply not_elem_of_empty.
  - intros x X r Hx IH i. destruct (decide (i = x)) as [->|Hne].
    + rewrite list_lookup_alter_eq, IH.
      destruct (decide (x ∈ X)) as [|_]; [done|].
      destruct (decide (x ∈ {[x]} ∪ X)) as [_|Hx']; [done|].
      exfalso. apply Hx', elem_of_union. left. by apply elem_of_singleton.
    + rewrite list_lookup_alter_ne, IH by done.
      destruct (decide (i ∈ X)) as [Hi|Hi],
               (decide (i ∈ {[x]} ∪ X)) as [Hi'|Hi']; [done| | |done].
      * exfalso. apply Hi', elem_of_union. by right.
      * exfalso. apply elem_of_union in Hi' as [Hi'|Hi']; [|done].
        by apply elem_of_singleton in Hi'.
Qed.

Lemma stop_all_length (active : gset nat) (ns : list AudioBufferSourceNode) :
  length (set_fold (λ i ns, alter stop i ns) ns active) = length ns.
Proof.
  refine (set_fold_ind_L (λ (r : list AudioBufferSourceNode) (_ : gset nat),
            length r = length ns) _ _ _ _ active); [done|].
  intros x X r _ IH. by rewrite length_alter.
Qed.

(** A clip scheduled at or after the instant the cursor points to starts
    at the clock reading of its call. *)
Lemma Qmax_now (cursor now : Q) : (cursor <= now)%Q → (Qmax cursor now == now)%Q.
Proof. intros Hle. by apply Q.max_r. Qed.

(** C2.  A message with [serverContent.interrupted = true], handled while
    the output context exists: the handler returns without awaiting a
    decode, every node of the active set is stopped and the set is empty,
    no node is created for audio the message may carry, the cursor is the
    clock reading of the interruption, and the next clip scheduled, at a
    later clock reading [t], starts at [t], whatever the cursor was before
    the interruption. *)
Theorem interruption_silences_playback
    (message : LiveServerMessage) (t0 t1 : Q) (s : Voice) :
  serverContent message ≫= interrupted = Some true →
  is_Some (outputAudioContextRef (audio s)) →
  let s' := onmessage message t0 t1 s in
  onmessage_begin message t0 s = Returned s'
  ∧ sourcesRef (playback s') = ∅
  ∧ (∀ i n, i ∈ sourcesRef (playback s) →
            nodes (playback s) !! i = Some n →
            nodes (playback s') !! i = Some (stop n))
  ∧ length (nodes (playback s')) = length (nodes (playback s))
  ∧ nextStartTimeRef (playback s') = t0
  ∧ ∀ (audioBuffer : AudioBuffer) (t : Q), (t0 <= t)%Q →
      ∃ source,
        nodes (playback (schedule audioBuffer t s'))
        = nodes (playback s') ++ [source]
        ∧ buffer source = audioBuffer
        ∧ stopped source = false
        ∧ (startedAt source == t)%Q.
Proof.
  intros Hint [ctx Hctx]. unfold onmessage, onmessage_begin.
  rewrite bool_decide_eq_true_2 by done. cbv zeta.
  unfold interrupt. rewrite Hctx. simpl. split_and!; try done.
  - intros i n Hi Hn. rewrite stop_all_lookup, decide_True, Hn by done. done.
  - apply stop_all_length.
  - intros audioBuffer t Ht. eexists. split_and!; try reflexivity.
    simpl. by apply Qmax_now.
Qed.

(** C10.  A message with [serverContent.interrupted = true] reaches no
    collaborator, whatever tool invocations it carries: the handler
    returns before the tool step, so no draft is forwarded, the contact
    link is not updated, and no tool result is sent. *)
Theorem interrupted_message_dispatches_no_tool
    (message : LiveServerMessage) (t0 t1 : Q) (s : Voice) :
  serverContent message ≫= interrupted = Some true →
  let s' := onmessage message t0 t1 s in
  onmessage_begin message t0 s = Returned s'
  ∧ LiveVoiceAgent.trace s' = LiveVoiceAgent.trace s
  ∧ whatsappUrl s' = whatsappUrl s.
Proof.
  intros Hint. unfold onmessage, onmessage_begin.
  by rewrite bool_decide_eq_true_2 by done.
Qed.

(** What a batch of [schedule] calls appends to the list of nodes: one
    node per clip; no node starts before the cursor the batch found; each
    node ends no later than any later node starts; and the cursor the
    batch leaves is no earlier than any node's end. *)
Lemma scheduleAll_chain (clips : list (AudioBuffer * Q)) (s : Voice) :
  ∃ started,
    nodes (playback (scheduleAll clips s)) = nodes (playback s) ++ started
    ∧ length started = length clips
    ∧ Forall (λ n, (nextStartTimeRef (playback s) <= startedAt n)%Q) started
    ∧ Forall (λ n, (endsAt n
                    <= nextStartTimeRef (playback (scheduleAll clips s)))%Q)
        started
    ∧ (nextStartTimeRef (playback s)
       <= nextStartTimeRef (playback (scheduleAll clips s)))%Q
    ∧ StronglySorted (λ a b, (endsAt a <= startedAt b)%Q) started.
Proof.
  revert s; induction clips as [|[audioBuffer t] clips IH]; intros s.
  - exists []. simpl. rewrite app_nil_r.
    split_and!; [done..| |constructor]. apply Qle_refl.
  - destruct (IH (schedule audioBuffer t s))
      as (started & Hnodes & Hlen & Hfrom & Hto & Hcursor & Hsorted).
    change (scheduleAll ((audioBuffer, t) :: clips) s)
      with (scheduleAll clips (schedule audioBuffer t s)).
    set (s1 := schedule audioBuffer t s) in *.
    set (n0 := {| buffer := audioBuffer;
                  startedAt := Qmax (nextStartTimeRef (playback s)) t;
                  stopped := false |}).
    assert (nextStartTimeRef (playback s1) = endsAt n0) as Hcur by done.
    assert (nextStartTimeRef (playback s) <= startedAt n0)%Q as Hn0
      by apply Q.le_max_l.
    assert (startedAt n0 <= endsAt n0)%Q as Hdur.
    { unfold endsAt. pose proof (duration_nonneg (buffer n0)). lra. }
    exists (n0 :: started). split_and!.
    + rewrite Hnodes. simpl. by rewrite <- app_assoc.
    + simpl. by rewrite Hlen.
    + constructor; [done|]. eapply Forall_impl; [exact Hfrom|].
      intros n Hn. cbv beta in Hn |- *. rewrite Hcur in Hn. lra.
    + constructor; [|done]. rewrite <- Hcur. exact Hcursor.
    + rewrite Hcur in Hcursor. lra.
    + constructor; [done|]. eapply Forall_impl; [exact Hfrom|].
      intros n Hn. cbv beta in Hn. by rewrite Hcur in Hn.
Qed.

(** Each clip of a batch is started by the rule of [schedule]: at the
    larger of the cursor it finds and the clock reading of its call, and
    the cursor it leaves is its start advanced by its duration. *)
Lemma scheduleAll_rule (clips : list (AudioBuffer * Q)) (s : Voice)
    (i : nat) (clip : AudioBuffer * Q) :
  clips !! i = Some clip →
  let before := scheduleAll (take i clips) s in
  let after := scheduleAll (take (S i) clips) s in
  nodes (playback (scheduleAll clips s)) !! (length (nodes (playback s)) + i)%nat
  = Some {| buffer := clip.1;
            startedAt := Qmax (nextStartTimeRef (playback before)) clip.2;
            stopped := false |}
  ∧ nextStartTimeRef (playback after)
    = (Qmax (nextStartTimeRef (playback before)) clip.2 + duration clip.1)%Q.
Proof.
  revert s i; induction clips as [|[audioBuffer t] clips IH]; intros s i;
    [done|].
  destruct i as [|i].
  - intros [= <-]. simpl. split; [|done].
    destruct (scheduleAll_chain clips (schedule audioBuffer t s))
      as (started & Hnodes & _).
    change (scheduleAll ((audioBuffer, t) :: clips) s)
      with (scheduleAll clips (schedule audioBuffer t s)).
    rewrite Hnodes. simpl. rewrite <- app_assoc, Nat.add_0_r.
    by rewrite lookup_app_r, Nat.sub_diag by lia.
  - intros Hclip. specialize (IH (schedule audioBuffer t s) i Hclip).
    simpl in IH. rewrite length_app in IH. simpl in IH.
    replace (length (nodes (playback s)) + S i)%nat
      with (length (nodes (playback s)) + 1 + i)%nat by lia.
    exact IH.
Qed.



End Playback.

(** ** The voice agent's tool dispatch *)

Section VoiceDispatch.

Import LiveVoiceAgent.

Context `{Platform}.

Lemma sideEffects_app (t t' : list Event) :
  sideEffects (t ++ t') = (sideEffects t + sideEffects t')%nat.
Proof. unfold sideEffects. by rewrite List.filter_app, length_app. Qed.

Lemma sideEffects_effectOf (fc : FunctionCall) :
  sideEffects (effectOf fc) = if recognised fc then 1%nat else 0%nat.
Proof.
  unfold effectOf, recognised.
  destruct (decide (fc_name fc = js "update_whatsapp_context")) as [E1|E1].
  { by rewrite (bool_decide_eq_true_2 _ E1). }
  rewrite (bool_decide_eq_false_2 _ E1).
  destruct (decide (fc_name fc = js "open_booking_form")) as [E2|E2].
  - by rewrite (bool_decide_eq_true_2 _ E2).
  - by rewrite (bool_decide_eq_false_2 _ E2).
Qed.

Lemma sideEffects_batch (fcs : list FunctionCall) :
  sideEffects (concat (effectOf <$> fcs)) = length (List.filter recognised fcs).
Proof.
  induction fcs as [|fc fcs IH]; [done|].
  cbn [fmap list_fmap concat List.filter].
  rewrite sideEffects_app, sideEffects_effectOf, IH.
  by destruct (recognised fc).
Qed.

(** The [map] callback on an invocation it can answer: the effect of the
    invocation's tool, then exactly one response, carrying the
    invocation's id and name. *)
Lemma respond_answerable (fc : FunctionCall) (s : Voice)
    (responses : list FunctionResponse) :
  answerable fc →
  ∃ s', respond fc (s, responses) = Normal (s', responses ++ [responseOf fc])
    ∧ LiveVoiceAgent.trace s' = LiveVoiceAgent.trace s ++ effectOf fc
    ∧ sessionPromiseRef s' = sessionPromiseRef s
    ∧ audio s' = audio s
    ∧ playback s' = playback s.
Proof.
  intros Hfc. unfold respond, responseOf, resultOf, effectOf.
  destruct (decide (fc_name fc = js "update_whatsapp_context")) as [E1|E1].
  - destruct (Hfc E1) as [encoded ->]. eexists. by split_and!.
  - destruct (decide (fc_name fc = js "open_booking_form")) as [E2|E2];
      eexists; (split; [reflexivity|]); simpl;
      rewrite ?app_nil_r; by split_and!.
Qed.

Lemma respond_batch (fcs : list FunctionCall) (s : Voice)
    (responses : list FunctionResponse) :
  Forall answerable fcs →
  ∃ s', forOf respond fcs (s, responses)
        = Normal (s', responses ++ (responseOf <$> fcs))
    ∧ LiveVoiceAgent.trace s'
      = LiveVoiceAgent.trace s ++ concat (effectOf <$> fcs)
    ∧ sessionPromiseRef s' = sessionPromiseRef s
    ∧ audio s' = audio s
    ∧ playback s' = playback s.
Proof.
  intros Hfcs. revert s responses.
  induction Hfcs as [|fc fcs Hfc _ IH]; intros s responses.
  - exists s. simpl. rewrite !app_nil_r. by split_and!.
  - destruct (respond_answerable fc s responses Hfc)
      as (s1 & E1 & T1 & P1 & A1 & B1).
    destruct (IH s1 (responses ++ [responseOf fc]))
      as (s2 & E2 & T2 & P2 & A2 & B2).
    exists s2. cbn [forOf]. rewrite E1, E2. split_and!.
    + by rewrite <- app_assoc.
    + rewrite T2, T1. simpl. by rewrite <- app_assoc.
    + congruence.
    + congruence.
    + congruence.
Qed.

(** A message that is not an interruption, whose invocations can all be
    answered: the effects of the invocations in order, then one
    acknowledgment holding one response per invocation, sent when the
    connection promise is fulfilled.  Audio the message carries leaves the
    trace as it is. *)
Lemma onmessage_tool_trace (message : LiveServerMessage) (t0 t1 : Q)
    (s : Voice) (fcs : list FunctionCall) :
  serverContent message ≫= interrupted ≠ Some true →
  toolCall message = Some fcs →
  Forall answerable fcs →
  LiveVoiceAgent.trace (onmessage message t0 t1 s)
  = LiveVoiceAgent.trace s ++ concat (effectOf <$> fcs)
    ++ match sessionPromiseRef s with
       | Some Fulfilled => [ SendToolResponse (responseOf <$> fcs) ]
       | _ => []
       end.
Proof.
  intros Hint Hcall Hfcs. unfold onmessage, onmessage_begin.
  rewrite bool_decide_eq_false_2 by done.
  unfold handleToolCall. rewrite Hcall.
  destruct (respond_batch fcs s [] Hfcs) as (s1 & -> & T1 & P1 & _).
  cbn [app].
  assert (LiveVoiceAgent.trace (thenSession (SendToolResponse (responseOf <$> fcs)) s1)
          = LiveVoiceAgent.trace s ++ concat (effectOf <$> fcs)
            ++ match sessionPromiseRef s with
               | Some Fulfilled => [ SendToolResponse (responseOf <$> fcs) ]
               | _ => []
               end) as Hsent.
  { unfold thenSession. rewrite P1.
    destruct (sessionPromiseRef s) as [[]|]; simpl;
      rewrite T1, ?app_nil_r, <- ?app_assoc; done. }
  destruct (serverContent message ≫= inlineData) as [base64Audio|]; [|done].
  destruct (truthy base64Audio && _); [|done].
  unfold onmessage_resume. by destruct (decodeAudioData base64Audio).
Qed.

End VoiceDispatch.

(** ** The voice agent as a machine *)

Section VoiceMachine.

Import LiveVoiceAgent.

Context `{Platform}.

(** The [map] callback touches neither the audio refs nor the playback
    refs, however it ends. *)
Lemma respond_keeps_refs (fc : FunctionCall)
    (st : Voice * list FunctionResponse) :
  audio (outcome (respond fc st)).1 = audio st.1
  ∧ playback (outcome (respond fc st)).1 = playback st.1.
Proof.
  destruct st as [s responses]. unfold respond.
  destruct (decide (fc_name fc = js "update_whatsapp_context")).
  - by destruct (encodeURIComponent (fc_args fc !! "summary")).
  - by destruct (decide (fc_name fc = js "open_booking_form")).
Qed.

Lemma respond_batch_keeps_refs (fcs : list FunctionCall)
    (st : Voice * list FunctionResponse) :
  audio (outcome (forOf respond fcs st)).1 = audio st.1
  ∧ playback (outcome (forOf respond fcs st)).1 = playback st.1.
Proof.
  revert st; induction fcs as [|fc fcs IH]; intros st; [done|].
  cbn [forOf]. pose proof (respond_keeps_refs fc st) as [Ha Hp].
  destruct (respond fc st) as [st1|st1]; simpl in Ha, Hp; [|done].
  destruct (IH st1) as [Ha1 Hp1]. by rewrite Ha1, Hp1.
Qed.

Lemma handleToolCall_keeps_refs (message : LiveServerMessage) (s : Voice) :
  audio (outcome (handleToolCall message s)) = audio s
  ∧ playback (outcome (handleToolCall message s)) = playback s.
Proof.
  unfold handleToolCall. destruct (toolCall message) as [fcs|]; [|done].
  pose proof (respond_batch_keeps_refs fcs (s, [])) as [Ha Hp].
  destruct (forOf respond fcs (s, [])) as [[s1 rs]|[s1 rs]]; simpl in *;
    [|done].
  unfold thenSession. by destruct (sessionPromiseRef s1) as [[]|].
Qed.

(** No handler drops the output context: once [startSession] has created
    it, every later message finds it. *)
Lemma output_context_persists (events : list VoiceEvent) (s : Voice) :
  is_Some (outputAudioContextRef (audio s)) →
  is_Some (outputAudioContextRef (audio (run events s))).
Proof.
  revert s; induction events as [|e events IH]; intros s Hs; [done|].
  apply IH. destruct e; simpl.
  - unfold startSession.
    destruct (negb _); [done|]. by destruct connects.
  - unfold onopen, startInputStream, thenSession. simpl.
    destruct (_ || _); [|destruct granted]; simpl;
      by destruct (sessionPromiseRef s) as [[]|].
  - unfold onmessage, onmessage_begin.
    destruct (bool_decide _); [done|].
    pose proof (handleToolCall_keeps_refs message s) as [Ha _].
    destruct (handleToolCall message s) as [s1|s1]; simpl in Ha;
      [|by rewrite Ha].
    destruct (serverContent message ≫= inlineData) as [d|]; [|by rewrite Ha].
    destruct (_ && _); [|by rewrite Ha].
    unfold onmessage_resume.
    destruct (decodeAudioData d); simpl; by rewrite Ha.
  - unfold onaudioprocess, thenSession.
    destruct (processorRef (audio s)) as [[? []]|]; try done.
    by destruct (sessionPromiseRef s) as [[]|].
  - done.
  - done.
  - unfold handleDisconnect. cbv zeta.
    destruct (animationFrameRef (audio s)) as [h|]; [destruct (h =? 0)%N|];
      simpl; by apply fmap_is_Some.
  - unfold onclose, handleDisconnect. cbv zeta.
    destruct (animationFrameRef (audio s)) as [h|]; [destruct (h =? 0)%N|];
      simpl; by apply fmap_is_Some.
  - done.
Qed.

(** A session whose connection was requested has its output context. *)
Lemma connecting_creates_output_context (API_KEY : option jstring)
    (connects : bool) (s : Voice) :
  sessionPromiseRef s = None →
  is_Some (sessionPromiseRef (startSession API_KEY connects s)) →
  is_Some (outputAudioContextRef (audio (startSession API_KEY connects s))).
Proof.
  intros Hnone. unfold startSession.
  destruct (negb _); simpl.
  - rewrite Hnone. by intros [? ?].
  - by destruct connects.
Qed.
End VoiceMachine.

(** ** Tool dispatch on both surfaces *)

Section TextDispatch.

Import ChatBot.

Lemma formsOpened_app (t t' : list Event) :
  formsOpened (t ++ t') = (formsOpened t + formsOpened t')%nat.
Proof. unfold formsOpened. by rewrite List.filter_app, length_app. Qed.

Lemma formsOpened_chunk (c : Chunk) :
  formsOpened (chunkEvents c) = bookingCallsIn c.
Proof.
  unfold chunkEvents, bookingCallsIn.
  induction (default [] (functionCallsOf c)) as [|call calls IH]; [done|].
  cbn [fmap list_fmap concat List.filter]. rewrite formsOpened_app, IH.
  unfold callEvents. destruct call as [fc|]; [|done].
  by destruct (isBookingCall (Some fc)).
Qed.

Lemma formsOpened_stream (fragments : list Chunk) :
  formsOpened (concat (chunkEvents <$> fragments))
  = sum_list (bookingCallsIn <$> fragments).
Proof.
  induction fragments as [|c rest IH]; [done|].
  cbn [fmap list_fmap concat sum_list sum_list_with].
  by rewrite formsOpened_app, formsOpened_chunk, IH.
Qed.

End TextDispatch.

Section Dispatch.

(** C5, as the code has it.  Neither surface compares ids, and every
    dispatch triggers its tool's side effect once, whatever was dispatched
    before it.  In the voice agent, the [map] callback on an invocation
    whose summary [encodeURIComponent] accepts returns with one response
    and one more side effect when the tool is a declared one (none when it
    is not); so two invocations of declared tools dispatched one after the
    other, under the same id or not, trigger two side effects.  In the
    text chat, the loop body on an [open_booking_form] call forwards one
    more draft, however the service answers the result, and on any other
    call none; so two such calls dispatched one after the other, the
    service not rejecting the first result, forward two drafts. *)
Theorem every_dispatch_triggers_its_side_effect :
  (∀ (P : LiveVoiceAgent.Platform) (fc : FunctionCall)
     (s : LiveVoiceAgent.Voice)
     (responses : list LiveVoiceAgent.FunctionResponse),
     LiveVoiceAgent.answerable fc →
     ∃ s',
       LiveVoiceAgent.respond fc (s, responses)
       = Normal (s', responses ++ [LiveVoiceAgent.responseOf fc])
       ∧ LiveVoiceAgent.sideEffects (LiveVoiceAgent.trace s')
         = (LiveVoiceAgent.sideEffects (LiveVoiceAgent.trace s)
            + if LiveVoiceAgent.recognised fc then 1 else 0)%nat)
  ∧ (∀ (P : LiveVoiceAgent.Platform) (fc fc' : FunctionCall)
       (s : LiveVoiceAgent.Voice)
       (responses : list LiveVoiceAgent.FunctionResponse),
       LiveVoiceAgent.recognised fc = true →
       LiveVoiceAgent.recognised fc' = true →
       LiveVoiceAgent.answerable fc →
       LiveVoiceAgent.answerable fc' →
       ∃ s',
         forOf LiveVoiceAgent.respond [fc; fc'] (s, responses)
         = Normal (s', responses ++ [ LiveVoiceAgent.responseOf fc;
                                      LiveVoiceAgent.responseOf fc' ])
         ∧ LiveVoiceAgent.sideEffects (LiveVoiceAgent.trace s')
           = (LiveVoiceAgent.sideEffects (LiveVoiceAgent.trace s) + 2)%nat)
  ∧ (∀ (toolReply : nat → ChatBot.Reply) (botMsgId : jstring)
       (call : option FunctionCall) (st : ChatBot.Loop),
       ChatBot.formsOpened
         (ChatBot.trace
            (ChatBot.loop_chat
               (outcome (ChatBot.handleCall toolReply botMsgId call st))))
       = (ChatBot.formsOpened (ChatBot.trace (ChatBot.loop_chat st))
          + if ChatBot.isBookingCall call then 1 else 0)%nat)
  ∧ (∀ (toolReply : nat → ChatBot.Reply) (botMsgId : jstring)
       (call call' : FunctionCall) (st : ChatBot.Loop),
       ChatBot.isBookingCall (Some call) = true →
       ChatBot.isBookingCall (Some call') = true →
       toolReply (ChatBot.acks st) ≠ ChatBot.Rejects →
       ChatBot.formsOpened
         (ChatBot.trace
            (ChatBot.loop_chat
               (outcome (forOf (ChatBot.handleCall toolReply botMsgId)
                           [Some call; Some call'] st))))
       = (ChatBot.formsOpened (ChatBot.trace (ChatBot.loop_chat st)) + 2)%nat).
Proof.
  assert (∀ toolReply botMsgId call st,
            ChatBot.formsOpened
              (ChatBot.trace
                 (ChatBot.loop_chat
                    (outcome (ChatBot.handleCall toolReply botMsgId call st))))
            = (ChatBot.formsOpened (ChatBot.trace (ChatBot.loop_chat st))
               + if ChatBot.isBookingCall call then 1 else 0)%nat) as Hone.
  { intros toolReply botMsgId call st.
    rewrite handleCall_trace, formsOpened_app. f_equal.
    unfold ChatBot.callEvents. destruct call as [fc|]; [|done].
    by destruct (ChatBot.isBookingCall (Some fc)). }
  split_and!.
  - intros P fc s responses Hfc.
    destruct (respond_answerable fc s responses Hfc) as (s' & E & T & _).
    exists s'. split; [exact E|].
    by rewrite T, sideEffects_app, sideEffects_effectOf.
  - intros P fc fc' s responses Hrec Hrec' Hfc Hfc'.
    destruct (respond_answerable fc s responses Hfc) as (s1 & E1 & T1 & _).
    destruct (respond_answerable fc' s1 (responses ++ [LiveVoiceAgent.responseOf fc]) Hfc')
      as (s2 & E2 & T2 & _).
    exists s2. cbn [forOf]. rewrite E1, E2. split.
    + by rewrite <- app_assoc.
    + rewrite T2, T1, !sideEffects_app, !sideEffects_effectOf, Hrec, Hrec'.
      lia.
  - exact Hone.
  - intros toolReply botMsgId call call' st Hcall Hcall' Hreply.
    cbn [forOf].
    pose proof (Hone toolReply botMsgId (Some call) st) as H1.
    rewrite Hcall in H1.
    assert (∃ st1, ChatBot.handleCall toolReply botMsgId (Some call) st
                   = Normal st1) as [st1 E1].
    { unfold ChatBot.handleCall. unfold ChatBot.isBookingCall in Hcall.
      apply bool_decide_eq_true in Hcall. rewrite decide_True by done.
      destruct (toolReply (ChatBot.acks st)) as [text|]; [|done].
      destruct (from_option truthy false text); by eexists. }
    rewrite E1 in H1 |- *. simpl in H1.
    pose proof (Hone toolReply botMsgId (Some call') st1) as H2.
    rewrite Hcall' in H2.
    destruct (ChatBot.handleCall toolReply botMsgId (Some call') st1)
      as [st2|st2]; simpl in H2 |- *; lia.
Qed.

(** C7, as the code has it.  Every dispatch of an [open_booking_form]
    invocation maps the [issue] argument to the draft's [description] and
    forwards the draft to the form.  The text chat then returns the result
    "Form Opened with prefilled data." to the service, however the service
    answers it.  The voice agent's dispatch produces the result "Booking
    Form Opened/Updated on User Screen."; that result is sent, with the
    other responses of the message, when the message is no interruption,
    [encodeURIComponent] accepts the summary of every
    [update_whatsapp_context] invocation of the message, and the
    connection promise is held and fulfilled. *)
Theorem booking_form_dispatch :
  (∀ (args : gmap string jstring),
     description (bookingDataOf args) = args !! "issue")
  ∧ (∀ (toolReply : nat → ChatBot.Reply) (botMsgId : jstring)
       (call : FunctionCall) (st : ChatBot.Loop),
       fc_name call = js "open_booking_form" →
       ChatBot.trace
         (ChatBot.loop_chat
            (outcome (ChatBot.handleCall toolReply botMsgId (Some call) st)))
       = ChatBot.trace (ChatBot.loop_chat st)
         ++ [ ChatBot.OpenBookingForm (bookingDataOf (fc_args call));
              ChatBot.SendFunctionResponse (js "open_booking_form")
                (js "Form Opened with prefilled data.") ])
  ∧ (∀ (P : LiveVoiceAgent.Platform) (fc : FunctionCall)
       (s : LiveVoiceAgent.Voice)
       (responses : list LiveVoiceAgent.FunctionResponse),
       fc_name fc = js "open_booking_form" →
       LiveVoiceAgent.respond fc (s, responses)
       = Normal
           (LiveVoiceAgent.emit
              (LiveVoiceAgent.OpenBookingForm (bookingDataOf (fc_args fc))) s,
            responses
            ++ [ {| LiveVoiceAgent.fr_id := fc_id fc;
                    LiveVoiceAgent.fr_name := fc_name fc;
                    LiveVoiceAgent.fr_result :=
                      js "Booking Form Opened/Updated on User Screen." |} ]))
  ∧ (∀ (P : LiveVoiceAgent.Platform) (message : LiveVoiceAgent.LiveServerMessage)
       (t0 t1 : Q) (s : LiveVoiceAgent.Voice) (fcs : list FunctionCall)
       (fc : FunctionCall),
       LiveVoiceAgent.serverContent message ≫= LiveVoiceAgent.interrupted
         ≠ Some true →
       LiveVoiceAgent.toolCall message = Some fcs →
       Forall LiveVoiceAgent.answerable fcs →
       LiveVoiceAgent.sessionPromiseRef s = Some LiveVoiceAgent.Fulfilled →
       fc ∈ fcs →
       fc_name fc = js "open_booking_form" →
       ∃ effects sent,
         LiveVoiceAgent.trace (LiveVoiceAgent.onmessage message t0 t1 s)
         = LiveVoiceAgent.trace s ++ effects
           ++ [ LiveVoiceAgent.SendToolResponse sent ]
         ∧ LiveVoiceAgent.OpenBookingForm (bookingDataOf (fc_args fc)) ∈ effects
         ∧ {| LiveVoiceAgent.fr_id := fc_id fc;
              LiveVoiceAgent.fr_name := fc_name fc;
              LiveVoiceAgent.fr_result :=
                js "Booking Form Opened/Updated on User Screen." |} ∈ sent).
Proof.
  split_and!.
  - done.
  - intros toolReply botMsgId call st Hname.
    rewrite handleCall_trace. unfold ChatBot.callEvents, ChatBot.isBookingCall.
    by rewrite bool_decide_eq_true_2.
  - intros P fc s responses Hname. unfold LiveVoiceAgent.respond.
    rewrite decide_False, decide_True; [done..|].
    rewrite Hname. by vm_compute.
  - intros P message t0 t1 s fcs fc Hint Hcall Hfcs Hsession Hfc Hname.
    exists (concat (LiveVoiceAgent.effectOf <$> fcs)),
           (LiveVoiceAgent.responseOf <$> fcs).
    rewrite (onmessage_tool_trace message t0 t1 s fcs Hint Hcall Hfcs), Hsession.
    assert (fc_name fc ≠ js "update_whatsapp_context") as Hother.
    { rewrite Hname. by vm_compute. }
    split_and!; [done| |].
    + apply list_elem_of_In, in_concat.
      exists (LiveVoiceAgent.effectOf fc). split.
      * by apply list_elem_of_In, list_elem_of_fmap_2.
      * unfold LiveVoiceAgent.effectOf.
        rewrite decide_False, decide_True by done. by left.
    + apply list_elem_of_fmap. exists fc. split; [|done].
      unfold LiveVoiceAgent.responseOf, LiveVoiceAgent.resultOf.
      by rewrite decide_False, decide_True by done.
Qed.

End Dispatch.

(** ** Muting and teardown in the voice agent *)

Section VoiceSession.

Import LiveVoiceAgent.

(** C4, at the inputs where the code departs from it.  In a session
    opened while unmuted, after the user mutes, a capture buffer is still
    encoded and sent: the capture handler tests the [isMuted] binding of
    the render that opened the session, which [toggleMute] does not
    change.  In a session opened while muted, after the user unmutes,
    capture buffers are still dropped. *)
Theorem mute_toggle_does_not_reach_capture_handler
    (P : Platform) (inputData : list Q) :
  (let s := toggleMute liveSession in
   isMuted s = true
   ∧ LiveVoiceAgent.trace (onaudioprocess inputData s)
     = LiveVoiceAgent.trace s
       ++ [ SendRealtimeInputMedia (createPcmBlob inputData) ])
  ∧ (let s := toggleMute reopenedMuted in
     isMuted s = false
     ∧ onaudioprocess inputData s = s).
Proof. vm_compute. by repeat split. Qed.

(** What the capture handler does in general: it looks at the binding it
    closed over, never at the component's current flag. *)
Lemma onaudioprocess_ignores_flag
    (P : Platform) (inputData : list Q) (s : Voice) (flag : bool) :
  LiveVoiceAgent.trace (onaudioprocess inputData (setIsMuted flag s))
  = LiveVoiceAgent.trace (onaudioprocess inputData s).
Proof.
  unfold onaudioprocess, thenSession. simpl.
  destruct (processorRef (audio s)) as [[? []]|]; [done| |done].
  by destruct (sessionPromiseRef s) as [[]|].
Qed.

(** C9, as the code has it.  The [onclose] callback is the explicit
    disconnect: the capture tracks are stopped, the capture nodes
    disconnected, both contexts closed, a pending animation frame
    cancelled, both session handles nulled, and the state set to
    [disconnected].  The [onerror] callback sets the state to [error] and
    does nothing else: the refs, the session handles and the trace are as
    they were. *)
Theorem teardown_on_close_and_status_on_error (s : Voice) :
  (onclose s = handleDisconnect s
   ∧ status (onclose s) = disconnected
   ∧ isConnected (onclose s) = false
   ∧ streamRef (audio (onclose s))
     = (λ _, {| tracksStopped := true |}) <$> streamRef (audio s)
   ∧ source_connected <$> sourceRef (audio (onclose s))
     = (λ _, false) <$> sourceRef (audio s)
   ∧ processor_connected <$> processorRef (audio (onclose s))
     = (λ _, false) <$> processorRef (audio s)
   ∧ inputAudioContextRef (audio (onclose s))
     = (λ _, {| closed := true |}) <$> inputAudioContextRef (audio s)
   ∧ outputAudioContextRef (audio (onclose s))
     = (λ _, {| closed := true |}) <$> outputAudioContextRef (audio s)
   ∧ (∀ handle, animationFrameRef (audio s) = Some handle → handle ≠ 0%N →
        LiveVoiceAgent.trace (onclose s)
        = LiveVoiceAgent.trace s ++ [ CancelAnimationFrame handle ])
   ∧ sessionRef (onclose s) = None
   ∧ sessionPromiseRef (onclose s) = None)
  ∧ (status (onerror s) = error
     ∧ isConnected (onerror s) = isConnected s
     ∧ audio (onerror s) = audio s
     ∧ playback (onerror s) = playback s
     ∧ sessionRef (onerror s) = sessionRef s
     ∧ sessionPromiseRef (onerror s) = sessionPromiseRef s
     ∧ LiveVoiceAgent.trace (onerror s) = LiveVoiceAgent.trace s).
Proof.
  split; [|done]. unfold onclose, handleDisconnect. cbv zeta.
  split_and!; try done.
  - by destruct (animationFrameRef (audio s)) as [h|]; [destruct (h =? 0)%N|].
  - by destruct (animationFrameRef (audio s)) as [h|]; [destruct (h =? 0)%N|].
  - by destruct (animationFrameRef (audio s)) as [h|]; [destruct (h =? 0)%N|].
  - destruct (animationFrameRef (audio s)) as [h|]; [destruct (h =? 0)%N|];
      simpl; by destruct (sourceRef (audio s)).
  - destruct (animationFrameRef (audio s)) as [h|]; [destruct (h =? 0)%N|];
      simpl; by destruct (processorRef (audio s)).
  - by destruct (animationFrameRef (audio s)) as [h|]; [destruct (h =? 0)%N|].
  - by destruct (animationFrameRef (audio s)) as [h|]; [destruct (h =? 0)%N|].
  - intros handle -> Hne. apply N.eqb_neq in Hne. by rewrite Hne.
Qed.

End VoiceSession.

(** ** Concrete runs *)

Section Runs.

(** The specification's scenario: of the turns A, B, C the trailing,
    unanswered prompt C is not submitted. *)
Example sanitize_drops_trailing_prompt :
  ChatBot.sanitize ChatBot.sampleLog
  = [ {| ChatBot.content_role := ChatBot.user;
         ChatBot.content_parts := [ {| ChatBot.part_text := js "A" |} ] |};
      {| ChatBot.content_role := ChatBot.model;
         ChatBot.content_parts := [ {| ChatBot.part_text := js "B" |} ] |} ].
Proof. by vm_compute. Qed.

(** The sample log is sanitised to an alternating history that does not
    end on a user turn. *)
Lemma sanitize_sample_witness :
  ChatBot.alternatesFrom ChatBot.user
    (ChatBot.content_role <$> ChatBot.sanitize ChatBot.sampleLog) = true
  ∧ ChatBot.content_role <$> last (ChatBot.sanitize ChatBot.sampleLog)
    ≠ Some ChatBot.user.
Proof.
  pose proof (sanitize_alternates_and_never_ends_on_user ChatBot.sampleLog)
    as (Halt & Hend & _).
  by split.
Defined.

(** An interruption at time 1/2 while two clips are active: the set is
    emptied, no node is added for the audio it carries, and the cursor is
    1/2. *)
Lemma interruption_witness :
  LiveVoiceAgent.sourcesRef (LiveVoiceAgent.playback LiveVoiceAgent.playing)
    = {[ 0%nat; 1%nat ]}
  ∧ let s' := LiveVoiceAgent.onmessage (H := LiveVoiceAgent.samplePlatform)
                LiveVoiceAgent.bargeIn (1 # 2) (1 # 2) LiveVoiceAgent.playing in
    LiveVoiceAgent.sourcesRef (LiveVoiceAgent.playback s') = ∅
    ∧ LiveVoiceAgent.nextStartTimeRef (LiveVoiceAgent.playback s') = (1 # 2)%Q
    ∧ length (LiveVoiceAgent.nodes (LiveVoiceAgent.playback s')) = 2%nat.
Proof.
  split; [by vm_compute|].
  destruct (interruption_silences_playback
              (H := LiveVoiceAgent.samplePlatform)
              LiveVoiceAgent.bargeIn (1 # 2) (1 # 2) LiveVoiceAgent.playing)
    as (_ & Hset & _ & Hlen & Hcursor & _).
  - reflexivity.
  - by eexists.
  - by split_and!.
Defined.

(** Two clips scheduled back to back at time 0 play one after the other. *)
Example back_to_back_clips :
  (λ n, (LiveVoiceAgent.startedAt n, LiveVoiceAgent.endsAt n))
    <$> LiveVoiceAgent.nodes (LiveVoiceAgent.playback LiveVoiceAgent.playing)
  = [ (0%Q, (0 + (24000 # 24000))%Q);
      ((0 + (24000 # 24000))%Q, (0 + (24000 # 24000) + (24000 # 24000))%Q) ].
Proof. reflexivity. Qed.


(** The interruption carries an invocation of the booking tool, and the
    trace is as before. *)
Lemma interrupted_message_witness :
  LiveVoiceAgent.toolCall LiveVoiceAgent.bargeIn
    = Some [ callOf "call-1" "open_booking_form" [] ]
  ∧ LiveVoiceAgent.trace
      (LiveVoiceAgent.onmessage (H := LiveVoiceAgent.samplePlatform)
         LiveVoiceAgent.bargeIn (1 # 2) (1 # 2) LiveVoiceAgent.playing)
    = LiveVoiceAgent.trace LiveVoiceAgent.playing.
Proof.
  split; [reflexivity|].
  apply (interrupted_message_dispatches_no_tool
           (H := LiveVoiceAgent.samplePlatform)
           LiveVoiceAgent.bargeIn (1 # 2) (1 # 2) LiveVoiceAgent.playing).
  reflexivity.
Defined.

(** C5, refuted as stated: the same invocation, under the same id,
    delivered in two successive messages forwards the booking draft
    twice. *)
Lemma replayed_id_repeats_side_effect :
  let once := LiveVoiceAgent.onmessage (H := LiveVoiceAgent.samplePlatform)
                LiveVoiceAgent.booking 0 0 LiveVoiceAgent.liveSession in
  let twice := LiveVoiceAgent.onmessage (H := LiveVoiceAgent.samplePlatform)
                 LiveVoiceAgent.booking 1 1 once in
  LiveVoiceAgent.sideEffects (LiveVoiceAgent.trace LiveVoiceAgent.liveSession)
    = 0%nat
  ∧ LiveVoiceAgent.sideEffects (LiveVoiceAgent.trace once) = 1%nat
  ∧ LiveVoiceAgent.sideEffects (LiveVoiceAgent.trace twice) = 2%nat
  ∧ LiveVoiceAgent.sideEffects (LiveVoiceAgent.trace twice) ≠ 1%nat.
Proof. by vm_compute. Qed.

(** The same with the two invocations in one message. *)
Example replay_in_one_message :
  LiveVoiceAgent.sideEffects
    (LiveVoiceAgent.trace
       (LiveVoiceAgent.onmessage (H := LiveVoiceAgent.samplePlatform)
          LiveVoiceAgent.replay 0 0 LiveVoiceAgent.liveSession))
  = 2%nat.
Proof. by vm_compute. Qed.

(** Two invocations under one id: dispatched one after the other by the
    voice agent's [map], and by the text chat's loop, they trigger two
    side effects each. *)
Lemma every_dispatch_witness :
  let fc := callOf "call-1" "open_booking_form" [("name", js "Sam")] in
  let link := callOf "call-2" "update_whatsapp_context" [("summary", js "hi")] in
  let st := {| ChatBot.loop_chat := ChatBot.idleChat;
               ChatBot.fullResponseText := []; ChatBot.acks := 0 |} in
  (∃ s',
     LiveVoiceAgent.respond (H := LiveVoiceAgent.samplePlatform) link
       (LiveVoiceAgent.liveSession, [])
     = Normal (s', [] ++ [LiveVoiceAgent.responseOf link])
     ∧ LiveVoiceAgent.sideEffects (LiveVoiceAgent.trace s')
       = (LiveVoiceAgent.sideEffects
            (LiveVoiceAgent.trace LiveVoiceAgent.liveSession)
          + if LiveVoiceAgent.recognised link then 1 else 0)%nat)
  ∧ (∃ s',
       forOf (LiveVoiceAgent.respond (H := LiveVoiceAgent.samplePlatform))
         [fc; fc] (LiveVoiceAgent.liveSession, [])
       = Normal (s', [] ++ [ LiveVoiceAgent.responseOf fc;
                             LiveVoiceAgent.responseOf fc ])
       ∧ LiveVoiceAgent.sideEffects (LiveVoiceAgent.trace s')
         = (LiveVoiceAgent.sideEffects
              (LiveVoiceAgent.trace LiveVoiceAgent.liveSession) + 2)%nat)
  ∧ ChatBot.formsOpened
      (ChatBot.trace
         (ChatBot.loop_chat
            (outcome (forOf (ChatBot.handleCall (ChatBot.answered (λ _, None))
                               (js "2"))
                        [Some fc; Some fc] st))))
    = (ChatBot.formsOpened (ChatBot.trace (ChatBot.loop_chat st)) + 2)%nat.
Proof.
  intros fc link st.
  destruct every_dispatch_triggers_its_side_effect
    as (Hvoice & Hvoice2 & _ & Htext2).
  split_and!.
  - apply (Hvoice LiveVoiceAgent.samplePlatform link
             LiveVoiceAgent.liveSession []).
    intros _. by eexists.
  - apply (Hvoice2 LiveVoiceAgent.samplePlatform fc fc
             LiveVoiceAgent.liveSession []).
    + reflexivity.
    + reflexivity.
    + intros Hname. by vm_compute in Hname.
    + intros Hname. by vm_compute in Hname.
  - apply (Htext2 (ChatBot.answered (λ _, None)) (js "2") fc fc st).
    + reflexivity.
    + reflexivity.
    + discriminate.
Defined.

(** A fragment with a tool call and the text " Anything else?", then a
    fragment " Bye.": the follow-up text comes first. *)
Lemma continuation_text_witness :
  last (ChatBot.messages
          (ChatBot.handleSendMessage (js "book me in") 1700000000003 1700000000004
             (Some {| ChatBot.chunks :=
                        [ ChatBot.fragment
                            [ callOf "call-1" "open_booking_form"
                                [("name", js "Sam")] ] " Anything else?";
                          ChatBot.fragment [] " Bye." ];
                      ChatBot.breaks := false |})
             (ChatBot.answered (λ _, Some (js "The form is open.")))
             ChatBot.idleChat))
  = Some (ChatBot.turn "1700000000005" ChatBot.model
            "The form is open. Anything else? Bye.").
Proof.
  apply (continuation_text_precedes_fragment_text
           (λ _, Some (js "The form is open.")) (js "book me in")
           1700000000003%N 1700000000004%N
           [ ChatBot.fragment
               [ callOf "call-1" "open_booking_form" [("name", js "Sam")] ]
               " Anything else?";
             ChatBot.fragment [] " Bye." ]
           ChatBot.idleChat).
  - reflexivity.
  - by eexists.
  - reflexivity.
Defined.

(** C7, refuted as stated: the result the voice agent returns for
    [open_booking_form] is not "Form Opened with prefilled data.". *)
Lemma voice_booking_result_differs :
  let fc := callOf "call-7" "open_booking_form" [("issue", js "cracked screen")] in
  let message := {| LiveVoiceAgent.serverContent := None;
                    LiveVoiceAgent.toolCall := Some [fc] |} in
  LiveVoiceAgent.trace
    (LiveVoiceAgent.onmessage (H := LiveVoiceAgent.samplePlatform)
       message 0 0 LiveVoiceAgent.liveSession)
  = LiveVoiceAgent.trace LiveVoiceAgent.liveSession
    ++ [ LiveVoiceAgent.OpenBookingForm
           {| name := None; phone := None; email := None; address := None;
              deviceType := None; serviceType := None;
              description := Some (js "cracked screen") |};
         LiveVoiceAgent.SendToolResponse
           [ {| LiveVoiceAgent.fr_id := js "call-7";
                LiveVoiceAgent.fr_name := js "open_booking_form";
                LiveVoiceAgent.fr_result :=
                  js "Booking Form Opened/Updated on User Screen." |} ] ]
  ∧ js "Booking Form Opened/Updated on User Screen."
    ≠ js "Form Opened with prefilled data.".
Proof. by vm_compute. Qed.

(** One booking invocation with an [issue], dispatched by the voice agent
    and by the text chat (whose service then rejects). *)
Lemma booking_form_dispatch_witness :
  let fc := callOf "call-7" "open_booking_form" [("issue", js "cracked screen")] in
  let message := {| LiveVoiceAgent.serverContent := None;
                    LiveVoiceAgent.toolCall := Some [fc] |} in
  LiveVoiceAgent.respond (H := LiveVoiceAgent.samplePlatform) fc
    (LiveVoiceAgent.liveSession, [])
  = Normal
      (LiveVoiceAgent.emit
         (LiveVoiceAgent.OpenBookingForm (bookingDataOf (fc_args fc)))
         LiveVoiceAgent.liveSession,
       [] ++ [ {| LiveVoiceAgent.fr_id := fc_id fc;
                  LiveVoiceAgent.fr_name := fc_name fc;
                  LiveVoiceAgent.fr_result :=
                    js "Booking Form Opened/Updated on User Screen." |} ])
  ∧ (∃ effects sent,
     LiveVoiceAgent.trace
       (LiveVoiceAgent.onmessage (H := LiveVoiceAgent.samplePlatform)
          message 0 0 LiveVoiceAgent.liveSession)
     = LiveVoiceAgent.trace LiveVoiceAgent.liveSession ++ effects
       ++ [ LiveVoiceAgent.SendToolResponse sent ]
     ∧ LiveVoiceAgent.OpenBookingForm (bookingDataOf (fc_args fc)) ∈ effects
     ∧ {| LiveVoiceAgent.fr_id := fc_id fc;
          LiveVoiceAgent.fr_name := fc_name fc;
          LiveVoiceAgent.fr_result :=
            js "Booking Form Opened/Updated on User Screen." |} ∈ sent)
  ∧ ChatBot.trace
      (ChatBot.loop_chat
         (outcome
            (ChatBot.handleCall (λ _, ChatBot.Rejects) (js "2") (Some fc)
               {| ChatBot.loop_chat := ChatBot.idleChat;
                  ChatBot.fullResponseText := []; ChatBot.acks := 0 |})))
    = [ ChatBot.OpenBookingForm (bookingDataOf (fc_args fc));
        ChatBot.SendFunctionResponse (js "open_booking_form")
          (js "Form Opened with prefilled data.") ].
Proof.
  intros fc message.
  destruct booking_form_dispatch as (_ & Htext & Hrespond & Hvoice).
  split_and!.
  - apply (Hrespond LiveVoiceAgent.samplePlatform fc
             LiveVoiceAgent.liveSession []).
    reflexivity.
  - apply (Hvoice LiveVoiceAgent.samplePlatform message 0%Q 0%Q
             LiveVoiceAgent.liveSession [fc] fc).
    + discriminate.
    + reflexivity.
    + repeat constructor; intros Hname; by vm_compute in Hname.
    + reflexivity.
    + by left.
    + reflexivity.
  - apply (Htext (λ _, ChatBot.Rejects) (js "2") fc
             {| ChatBot.loop_chat := ChatBot.idleChat;
                ChatBot.fullResponseText := []; ChatBot.acks := 0 |}).
    reflexivity.
Defined.

(** In the text chat, a call of any other tool passes through the loop
    without a trace. *)
Lemma handleCall_other_tool (toolReply : nat → ChatBot.Reply)
    (botMsgId : jstring) (call : FunctionCall) (st : ChatBot.Loop) :
  fc_name call ≠ js "open_booking_form" →
  ChatBot.handleCall toolReply botMsgId (Some call) st = Normal st.
Proof. intros Hname. unfold ChatBot.handleCall. by rewrite decide_False. Qed.

(** C8, at the input where the code departs from it.  A stream fragment
    of the text chat carries an invocation of an undeclared tool and the
    text "ok": the stream is consumed to its end and the text shown, and
    nothing is returned to the service for the invocation.  The same
    invocation in a voice message is answered with "Unknown tool". *)
Theorem unknown_tool_gets_no_result_in_text_chat :
  let unknown := callOf "call-9" "reboot_device" [] in
  let c' := ChatBot.handleSendMessage (js "hi") 1700000000003 1700000000004
              (Some {| ChatBot.chunks := [ ChatBot.fragment [unknown] "ok" ];
                       ChatBot.breaks := false |})
              (ChatBot.answered (λ _, None)) ChatBot.idleChat in
  ChatBot.trace c' = [ ChatBot.SendMessageStream (js "hi") ]
  ∧ ChatBot.resultsReturned (ChatBot.trace c') = 0%nat
  ∧ ChatBot.error c' = None
  ∧ last (ChatBot.messages c')
    = Some (ChatBot.turn "1700000000005" ChatBot.model "ok")
  ∧ LiveVoiceAgent.trace
      (LiveVoiceAgent.onmessage (H := LiveVoiceAgent.samplePlatform)
         {| LiveVoiceAgent.serverContent := None;
            LiveVoiceAgent.toolCall := Some [unknown] |}
         0 0 LiveVoiceAgent.liveSession)
    = LiveVoiceAgent.trace LiveVoiceAgent.liveSession
      ++ [ LiveVoiceAgent.SendToolResponse
             [ {| LiveVoiceAgent.fr_id := js "call-9";
                  LiveVoiceAgent.fr_name := js "reboot_device";
                  LiveVoiceAgent.fr_result := js "Unknown tool" |} ] ].
Proof. by vm_compute. Qed.

(** C9, refuted as stated: after [onerror] on a live session the capture
    tracks still run, the output context is open and the connection
    promise is still held; the state differs from the one an explicit
    disconnect followed by the error status would give. *)
Lemma onerror_runs_no_teardown :
  let s := LiveVoiceAgent.onerror LiveVoiceAgent.liveSession in
  LiveVoiceAgent.status s = LiveVoiceAgent.error
  ∧ LiveVoiceAgent.streamRef (LiveVoiceAgent.audio s)
    = Some {| LiveVoiceAgent.tracksStopped := false |}
  ∧ LiveVoiceAgent.outputAudioContextRef (LiveVoiceAgent.audio s)
    = Some {| LiveVoiceAgent.closed := false |}
  ∧ LiveVoiceAgent.sessionPromiseRef s = Some LiveVoiceAgent.Fulfilled
  ∧ s ≠ LiveVoiceAgent.setStatus LiveVoiceAgent.error
          (LiveVoiceAgent.handleDisconnect LiveVoiceAgent.liveSession).
Proof.
  vm_compute. split_and!; try reflexivity. intros Heq. discriminate Heq.
Qed.

(** Closing a session with animation frame 7 pending cancels that frame. *)
Lemma teardown_witness :
  let s := LiveVoiceAgent.setAudio
             {| LiveVoiceAgent.inputAudioContextRef :=
                  Some {| LiveVoiceAgent.closed := false |};
                LiveVoiceAgent.outputAudioContextRef :=
                  Some {| LiveVoiceAgent.closed := false |};
                LiveVoiceAgent.streamRef :=
                  Some {| LiveVoiceAgent.tracksStopped := false |};
                LiveVoiceAgent.processorRef := None;
                LiveVoiceAgent.sourceRef := None;
                LiveVoiceAgent.animationFrameRef := Some 7%N |}
             LiveVoiceAgent.liveSession in
  LiveVoiceAgent.trace (LiveVoiceAgent.onclose s)
  = LiveVoiceAgent.trace s ++ [ LiveVoiceAgent.CancelAnimationFrame 7 ].
Proof.
  intros s.
  destruct (teardown_on_close_and_status_on_error s)
    as [(_ & _ & _ & _ & _ & _ & _ & _ & Hcancel & _) _].
  apply (Hcancel 7%N); [reflexivity|discriminate].
Defined.

End Runs.

(** * Further properties *)

(** ** More on the history sanitiser *)

Section SanitizerMore.

Import ChatBot.

Lemma filter_sublist {A} (f : A → bool) (l : list A) :
  List.filter f l `sublist_of` l.
Proof.
  induction l as [|x l IH]; simpl; [constructor|].
  destruct (f x); by constructor.
Qed.

Lemma filter_Forall {A} (f : A → bool) (l : list A) :
  Forall (λ x, f x = true) (List.filter f l).
Proof.
  induction l as [|x l IH]; simpl; [constructor|].
  destruct (f x) eqn:E; [by constructor|done].
Qed.

Lemma Forall_sublist_of {A} (P : A → Prop) (k l : list A) :
  Forall P l → k `sublist_of` l → Forall P k.
Proof.
  intros Hl Hsub. induction Hsub as [|x k l Hsub IH|x k l Hsub IH];
    [done| |].
  - apply Forall_cons in Hl as [Hx Hl]. constructor; auto.
  - apply Forall_cons in Hl as [_ Hl]. auto.
Qed.

(** The walk appends the turns of a sublist of its input, as they are. *)
Lemma walk_appends_sublist (l : list Message) (validHistory : list Content)
    (expectedRole : Role) :
  ∃ kept, kept `sublist_of` l
    ∧ (fold_left walkStep l (validHistory, expectedRole)).1
      = validHistory ++ (toContent <$> kept).
Proof.
  revert validHistory expectedRole.
  induction l as [|msg l IH]; intros vh r.
  - exists []. simpl. by rewrite app_nil_r.
  - simpl. fold (toContent msg). destruct (decide (msg_role msg = r)).
    + destruct (IH (vh ++ [toContent msg]) (flipRole r)) as (kept & Hsub & ->).
      exists (msg :: kept). split; [by constructor|].
      by rewrite <- app_assoc.
    + destruct (IH vh r) as (kept & Hsub & ->).
      exists kept. split; [by constructor|done].
Qed.

Lemma removelast_sublist {A} (l : list A) : removelast l `sublist_of` l.
Proof.
  induction l as [|x [|y l] IH]; [constructor|by repeat constructor|].
  change (removelast (x :: y :: l)) with (x :: removelast (y :: l)).
  by constructor.
Qed.

(** X1.  The submitted history is an order-preserving selection of the
    log's turns, roles and texts unchanged, one part per turn; no selected
    turn is the seeded greeting (id "1") or has a blank text. *)
Theorem sanitize_selects_turns (messages : list Message) :
  ∃ kept, kept `sublist_of` messages
    ∧ Forall (λ msg, msg_id msg ≠ js "1" ∧ trim (msg_text msg) ≠ []) kept
    ∧ sanitize messages = toContent <$> kept.
Proof.
  unfold sanitize, walk.
  destruct (walk_appends_sublist (historyMessages messages) [] user)
    as (kept & Hsub & ->). simpl.
  assert (Forall (λ msg, msg_id msg ≠ js "1" ∧ trim (msg_text msg) ≠ [])
            (historyMessages messages)) as Hkeep.
  { eapply Forall_impl; [apply filter_Forall|].
    intros msg Hmsg. unfold keepForHistory in Hmsg.
    apply andb_true_iff in Hmsg as [H1 H2].
    by apply bool_decide_eq_true in H1, H2. }
  assert (kept `sublist_of` messages) as Hsub'.
  { etrans; [exact Hsub|]. apply filter_sublist. }
  destruct (endsOnUser (toContent <$> kept)).
  - exists (removelast kept). split_and!.
    + etrans; [apply removelast_sublist|done].
    + eapply Forall_sublist_of; [|apply removelast_sublist].
      eapply Forall_sublist_of; [exact Hkeep|exact Hsub].
    + by rewrite fmap_removelast.
  - exists kept. split_and!; [done| |done].
    eapply Forall_sublist_of; [exact Hkeep|exact Hsub].
Qed.

(** On turns whose roles alternate from the expected one, the walk takes
    every turn. *)
Lemma walk_takes_all (l : list Message) (validHistory : list Content)
    (expectedRole : Role) :
  alternatesFrom expectedRole (msg_role <$> l) = true →
  (fold_left walkStep l (validHistory, expectedRole)).1
  = validHistory ++ (toContent <$> l).
Proof.
  revert validHistory expectedRole.
  induction l as [|msg l IH]; intros vh r; simpl.
  - by rewrite app_nil_r.
  - rewrite andb_true_iff, bool_decide_eq_true. intros [Hr Hl].
    rewrite decide_True by done. fold (toContent msg). rewrite IH by done.
    by rewrite <- app_assoc.
Qed.

Lemma filter_all {A} (f : A → bool) (l : list A) :
  forallb f l = true → List.filter f l = l.
Proof.
  induction l as [|x l IH]; simpl; [done|].
  rewrite andb_true_iff. intros [-> Hl]. by rewrite IH.
Qed.

(** X2.  A log that is already a valid history (no greeting, no blank
    text, roles alternating from [user], not ending on [user]) is
    submitted whole. *)
Theorem sanitize_keeps_valid_log (messages : list Message) :
  forallb keepForHistory messages = true →
  alternatesFrom user (msg_role <$> messages) = true →
  msg_role <$> last messages ≠ Some user →
  sanitize messages = toContent <$> messages.
Proof.
  intros Hkeep Halt Hlast. unfold sanitize, walk, historyMessages.
  rewrite (filter_all _ _ Hkeep), (walk_takes_all _ _ _ Halt). simpl.
  unfold endsOnUser. rewrite fmap_last.
  destruct (last messages) as [msg|]; simpl; [|done].
  rewrite bool_decide_eq_false_2; [done|].
  intros Huser. apply Hlast. simpl. by f_equal.
Qed.

Lemma expects_parity (l : list Role) :
  expects user l = if Nat.even (length l) then user else model.
Proof.
  induction l as [|x l IH] using rev_ind; [done|].
  rewrite expects_snoc, IH, length_app, Nat.add_1_r, Nat.even_succ.
  rewrite <- Nat.negb_even. by destruct (Nat.even (length l)).
Qed.

(** X3.  The submitted history holds complete exchanges only: its length
    is even. *)
Theorem sanitize_length_even (messages : list Message) :
  Nat.even (length (sanitize messages)) = true.
Proof.
  pose proof (walk_alternates messages) as Halt.
  unfold sanitize. set (vh := (walk messages).1) in *.
  assert (∀ l : list Role, alternatesFrom user l = true →
            last l ≠ Some user → Nat.even (length l) = true) as Heven.
  { intros l Hl Hlast. destruct (last l) as [x|] eqn:E.
    - pose proof (alternatesFrom_last _ _ _ Hl E) as Hx.
      rewrite expects_parity in Hx.
      destruct (Nat.even (length l)); [done|]. subst x. done.
    - apply last_None in E. by subst l. }
  rewrite <- (length_fmap content_role).
  apply Heven.
  - destruct (endsOnUser vh); [|done].
    rewrite fmap_removelast. by apply alternatesFrom_removelast.
  - rewrite fmap_last. destruct (endsOnUser vh) eqn:E; unfold endsOnUser in E.
    + rewrite <- fmap_last, fmap_removelast.
      apply pop_ends_on_model; [done|]. rewrite fmap_last.
      destruct (last vh) as [c|]; [|done]. simpl.
      by apply bool_decide_eq_true in E as ->.
    + destruct (last vh) as [c|]; [|done]. simpl. intros [= Hc].
      by rewrite bool_decide_eq_true_2 in E.
Qed.

(** X4.  After [clearHistory], reopening the chat creates a session whose
    history is empty: the greeting that is left is never submitted. *)
Theorem clearHistory_restarts_from_empty_history
    (API_KEY : jstring) (c : Chat) :
  truthy API_KEY = true →
  let c' := initEffect true (Some API_KEY) (clearHistory c) in
  messages c' = [greeting]
  ∧ chatSession c' = Some {| history := [] |}.
Proof.
  intros Hkey. unfold initEffect, clearHistory, initChat. simpl.
  by rewrite Hkey.
Qed.

End SanitizerMore.

(** ** More on the text chat's submissions *)

(** Whatever holds from each state of a loop to the next, and composes,
    holds from its first state to the state it ends in, normally or not. *)
Lemma forOf_outcome {A B} (R : A → A → Prop) (body : B → A → Completion A) :
  (∀ a, R a a) →
  (∀ a1 a2 a3, R a1 a2 → R a2 a3 → R a1 a3) →
  (∀ x a, R a (outcome (body x a))) →
  ∀ l a, R a (outcome (forOf body l a)).
Proof.
  intros Hrefl Htrans Hbody l. induction l as [|x l IH]; intros a; simpl.
  - apply Hrefl.
  - specialize (Hbody x a). destruct (body x a) as [a1|a1]; simpl in *.
    + eapply Htrans; [exact Hbody|apply IH].
    + exact Hbody.
Qed.

Section Submissions.

Import ChatBot.

Lemma steady_refl (c : Chat) : steady c c.
Proof. by repeat split. Qed.

Lemma steady_trans (c1 c2 c3 : Chat) : steady c1 c2 → steady c2 c3 → steady c1 c3.
Proof.
  intros (I1 & R1 & V1 & L1 & S1 & E1 & T1) (I2 & R2 & V2 & L2 & S2 & E2 & T2).
  repeat split; try congruence. lia.
Qed.

Lemma withText_ids (botMsgId full : jstring) (prev : list Message) :
  msg_id <$> withText botMsgId full prev = msg_id <$> prev
  ∧ msg_role <$> withText botMsgId full prev = msg_role <$> prev.
Proof.
  unfold withText. rewrite <- !list_fmap_compose.
  split; apply list_fmap_ext; intros i msg _; simpl;
    by destruct (decide (msg_id msg = botMsgId)).
Qed.

Lemma steady_withText (botMsgId full : jstring) (c : Chat) :
  steady c (setMessages (withText botMsgId full) c).
Proof.
  destruct (withText_ids botMsgId full (messages c)) as [Hid Hrole].
  by repeat split.
Qed.

Lemma counts_snoc (t : list Event) (e : Event) :
  formsOpened (t ++ [e])
  = (formsOpened t + match e with OpenBookingForm _ => 1 | _ => 0 end)%nat
  ∧ resultsReturned (t ++ [e])
    = (resultsReturned t
       + match e with SendFunctionResponse _ _ => 1 | _ => 0 end)%nat.
Proof.
  unfold formsOpened, resultsReturned.
  rewrite !List.filter_app, !length_app. by destruct e.
Qed.

Lemma handleCall_steady (toolReply : nat → Reply) (botMsgId : jstring)
    (call : option FunctionCall) (st : Loop) :
  steady (loop_chat st)
    (loop_chat (outcome (handleCall toolReply botMsgId call st))).
Proof.
  unfold handleCall. destruct call as [call|]; [|apply steady_refl].
  destruct (decide _); [|apply steady_refl].
  set (d := bookingDataOf (fc_args call)).
  set (c := loop_chat st).
  set (e2 := SendFunctionResponse (js "open_booking_form")
               (js "Form Opened with prefilled data.")).
  assert (steady c (emit e2 (emit (OpenBookingForm d) c))) as Hsent.
  { repeat split. simpl.
    destruct (counts_snoc (ChatBot.trace c ++ [OpenBookingForm d]) e2) as [-> ->].
    destruct (counts_snoc (ChatBot.trace c) (OpenBookingForm d)) as [-> ->].
    simpl. lia. }
  destruct (toolReply (acks st)) as [[t|]|]; simpl; [|done..].
  destruct (truthy t); simpl; [|done].
  eapply steady_trans; [exact Hsent|apply steady_withText].
Qed.

Lemma handleChunk_steady (toolReply : nat → Reply) (botMsgId : jstring)
    (c : Chunk) (st : Loop) :
  steady (loop_chat st)
    (loop_chat (outcome (handleChunk toolReply botMsgId c st))).
Proof.
  unfold handleChunk.
  set (R := λ a b : Loop, steady (loop_chat a) (loop_chat b)).
  assert (∀ calls, R st (outcome (forOf (handleCall toolReply botMsgId) calls st)))
    as Hcalls.
  { intros calls. apply (forOf_outcome R).
    - intros a. apply steady_refl.
    - intros a1 a2 a3. apply steady_trans.
    - intros x a. apply handleCall_steady. }
  assert (∀ r : Completion Loop, R st (outcome r) →
    R st (outcome match r with
                  | Normal st1 =>
                      Normal
                        {| loop_chat :=
                             setMessages
                               (withText botMsgId
                                  (fullResponseText st1
                                   ++ default [] (chunk_text c)))
                               (loop_chat st1);
                           fullResponseText :=
                             fullResponseText st1 ++ default [] (chunk_text c);
                           acks := acks st1 |}
                  | Abrupt st1 => Abrupt st1
                  end)) as Hthen.
  { intros [st1|st1] Hr; simpl in *; [|done].
    eapply steady_trans; [exact Hr|apply steady_withText]. }
  apply Hthen.
  destruct (functionCallsOf c) as [calls|]; [|apply steady_refl].
  destruct (0 <? length calls)%nat; [apply Hcalls|apply steady_refl].
Qed.

Lemma chunks_steady (toolReply : nat → Reply) (botMsgId : jstring)
    (fragments : list Chunk) (st : Loop) :
  steady (loop_chat st)
    (loop_chat (outcome (forOf (handleChunk toolReply botMsgId) fragments st))).
Proof.
  apply (forOf_outcome (λ a b : Loop, steady (loop_chat a) (loop_chat b))).
  - intros a. apply steady_refl.
  - intros a1 a2 a3. apply steady_trans.
  - intros x a. apply handleChunk_steady.
Qed.

(** X5.  An accepted submission, whatever the stream and the service do:
    the turns already in the log keep their ids and roles, a [user] turn
    is appended, and an agent placeholder after it exactly when
    [sendMessageStream] resolved; the component ends idle, with the input
    cleared and its session kept, and the error flag is either clear or
    "Data Stream Interrupted.". *)
Theorem accepted_submission_appends_turns
    (text : jstring) (now1 now2 : N) (result : option Stream)
    (toolReply : nat → Reply) (c : Chat) :
  truthy (trim text) = true →
  is_Some (chatSession c) →
  isLoading c = false →
  let c' := handleSendMessage text now1 now2 result toolReply c in
  msg_id <$> messages c'
    = (msg_id <$> messages c)
      ++ toString now1
         :: match result with Some _ => [toString (now2 + 1)] | None => [] end
  ∧ msg_role <$> messages c'
    = (msg_role <$> messages c)
      ++ user :: match result with Some _ => [model] | None => [] end
  ∧ isLoading c' = false
  ∧ inputValue c' = []
  ∧ chatSession c' = chatSession c
  ∧ (error c' = None ∨ error c' = Some (js "Data Stream Interrupted.")).
Proof.
  intros Htext Hsession Hidle. unfold handleSendMessage.
  rewrite Htext, Hidle, bool_decide_eq_true_2 by done. cbn [negb orb].
  cbv zeta. destruct result as [result|].
  2:{ simpl. rewrite !fmap_app. split_and!; auto. }
  match goal with
  | |- context [forOf ?body (chunks result) ?st0] =>
      pose proof (chunks_steady toolReply (toString (now2 + 1)) (chunks result) st0)
        as (Hid & Hrole & Hin & Hload & Hses & Herr & _);
      destruct (forOf body (chunks result) st0) as [st|st]
  end; simpl in Hid, Hrole, Hin, Hload, Hses, Herr.
  - destruct (breaks result); simpl; rewrite Hid, Hrole, Hin, Hses, ?Herr,
      !fmap_app, <- !app_assoc; split_and!; auto.
  - simpl. rewrite Hid, Hrole, Hin, Hses, !fmap_app, <- !app_assoc.
    split_and!; auto.
Qed.

(** X6.  In every run of [handleSendMessage], accepted or not and however
    it ends, as many tool results are returned to the service as booking
    drafts are forwarded to the form. *)
Theorem drafts_and_results_are_paired
    (text : jstring) (now1 now2 : N) (result : option Stream)
    (toolReply : nat → Reply) (c : Chat) :
  let c' := handleSendMessage text now1 now2 result toolReply c in
  (formsOpened (ChatBot.trace c') + resultsReturned (ChatBot.trace c)
   = formsOpened (ChatBot.trace c) + resultsReturned (ChatBot.trace c'))%nat.
Proof.
  unfold handleSendMessage.
  destruct (_ || _ || _); [simpl; lia|]. cbv zeta.
  set (c1 := emit (SendMessageStream text) _).
  assert (formsOpened (ChatBot.trace c1) = formsOpened (ChatBot.trace c)
          ∧ resultsReturned (ChatBot.trace c1) = resultsReturned (ChatBot.trace c))
    as [F1 R1].
  { unfold c1. simpl.
    destruct (counts_snoc (ChatBot.trace c) (SendMessageStream text)) as [-> ->].
    simpl. lia. }
  clearbody c1.
  destruct result as [result|]; [|simpl; lia].
  match goal with
  | |- context [forOf ?body (chunks result) ?st0] =>
      pose proof (chunks_steady toolReply (toString (now2 + 1)) (chunks result) st0)
        as (_ & _ & _ & _ & _ & _ & Hcount);
      destruct (forOf body (chunks result) st0) as [st|st]
  end; simpl in Hcount; [destruct (breaks result)|]; simpl; lia.
Qed.

Lemma trimStart_blank (text : jstring) :
  Forall (λ c, isWhiteSpace c = true) text → trimStart text = [].
Proof. induction 1 as [|c text Hc _ IH]; simpl; [done|]. by rewrite Hc. Qed.

(** X7.  A submission is ignored, leaving the component exactly as it
    was, when its text holds white space only, when there is no session,
    or when a send is in flight. *)
Theorem blank_or_untimely_submission_is_ignored
    (text : jstring) (now1 now2 : N) (result : option Stream)
    (toolReply : nat → Reply) (c : Chat) :
  Forall (λ c, isWhiteSpace c = true) text
  ∨ chatSession c = None
  ∨ isLoading c = true →
  handleSendMessage text now1 now2 result toolReply c = c.
Proof.
  intros [Hblank|[Hnone|Hbusy]]; unfold handleSendMessage.
  - unfold trim. by rewrite (trimStart_blank _ Hblank).
  - rewrite Hnone. rewrite bool_decide_eq_false_2 by by intros [? ?].
    by rewrite orb_true_r.
  - rewrite Hbusy. by rewrite orb_true_r.
Qed.

(** X8.  A stream that breaks after some fragments: the text assembled
    from the fragments received stays in the placeholder turn, the error
    flag is raised and the component is idle again. *)
Theorem broken_stream_keeps_partial_text
    (followUp : nat → option jstring) (text : jstring) (now1 now2 : N)
    (fragments : list Chunk) (c : Chat) :
  truthy (trim text) = true →
  is_Some (chatSession c) →
  isLoading c = false →
  let c' := handleSendMessage text now1 now2
              (Some {| chunks := fragments; breaks := true |})
              (answered followUp) c in
  last (messages c')
  = Some {| msg_id := toString (now2 + 1); msg_role := model;
            msg_text := narrative followUp 0 fragments |}
  ∧ error c' = Some (js "Data Stream Interrupted.")
  ∧ isLoading c' = false.
Proof.
  intros Htext Hsession Hidle. unfold handleSendMessage.
  rewrite Htext, Hidle, bool_decide_eq_true_2 by done. cbn [negb orb].
  cbv zeta. cbn [chunks breaks].
  match goal with
  | |- context [forOf ?body fragments ?st0] =>
      destruct (chunks_answered followUp (toString (now2 + 1)) fragments st0)
        as (st' & E & Hshows & Htxt)
  end.
  { unfold placeholderShows. simpl. by rewrite last_snoc. }
  simpl in E |- *. rewrite E. simpl. split_and!; [|done..].
  rewrite Hshows. by rewrite Htxt.
Qed.

End Submissions.

(** ** Rendering links *)

Section Links.

Import ChatBot.

Lemma stripPrefix_Some (p s rest : jstring) :
  stripPrefix p s = Some rest ↔ s = p ++ rest.
Proof.
  revert s; induction p as [|a p IH]; intros s; simpl.
  - split; [by intros [= ->]|by intros ->].
  - destruct s as [|b s]; [by split|].
    destruct (N.eqb_spec a b) as [->|Hne].
    + rewrite IH. split; [by intros ->|by intros [= ->]].
    + split; [done|]. intros [= ? ?]. done.
Qed.

Lemma nonSpaces_app (x y : jstring) :
  (nonSpaces x <= nonSpaces (x ++ y))%nat.
Proof.
  induction x as [|c x IH]; simpl; [lia|].
  destruct (isWhiteSpace c); lia.
Qed.

Lemma nonSpaces_le (s : jstring) : (nonSpaces s <= length s)%nat.
Proof.
  induction s as [|c s IH]; simpl; [lia|]. destruct (isWhiteSpace c); lia.
Qed.

Lemma nonSpaces_take (s : jstring) :
  nonSpaces (take (nonSpaces s) s) = nonSpaces s
  ∧ Forall (λ c, isWhiteSpace c = false) (take (nonSpaces s) s).
Proof.
  induction s as [|c s [IH1 IH2]]; simpl; [done|].
  destruct (isWhiteSpace c) eqn:E; simpl; [done|].
  rewrite E, IH1. split; [done|]. by constructor.
Qed.

(** A match at the start of a string is a match at the start of every
    extension of it. *)
Lemma schemeAt_app (p x y : jstring) (n : nat) :
  schemeAt p x = Some n → is_Some (schemeAt p (x ++ y)).
Proof.
  unfold schemeAt. destruct (stripPrefix p x) as [rest|] eqn:E; [|done].
  apply stripPrefix_Some in E as ->.
  destruct (Nat.ltb_spec 0 (nonSpaces rest)) as [Hpos|]; [|done]. intros _.
  rewrite <- app_assoc.
  rewrite (proj2 (stripPrefix_Some p (p ++ rest ++ y) (rest ++ y)) eq_refl).
  pose proof (nonSpaces_app rest y).
  destruct (Nat.ltb_spec 0 (nonSpaces (rest ++ y))); [done|lia].
Qed.

Lemma urlAt_app (x y : jstring) : is_Some (urlAt x) → is_Some (urlAt (x ++ y)).
Proof.
  unfold urlAt. intros [n Hn].
  destruct (schemeAt (js "https://") x) as [m|] eqn:E.
  - destruct (schemeAt_app _ x y m E) as [m' ->]. done.
  - destruct (schemeAt_app _ x y n Hn) as [m' ->].
    by destruct (schemeAt (js "https://") (x ++ y)).
Qed.

(** What a match at the start of a string looks like. *)
Lemma schemeAt_shape (p s : jstring) (n : nat) :
  schemeAt p s = Some n →
  (length p < n <= length s)%nat
  ∧ p `prefix_of` take n s
  ∧ Forall (λ c, isWhiteSpace c = false) (drop (length p) (take n s))
  ∧ schemeAt p (take n s) = Some n.
Proof.
  unfold schemeAt. destruct (stripPrefix p s) as [rest|] eqn:E; [|done].
  apply stripPrefix_Some in E as ->.
  destruct (Nat.ltb_spec 0 (nonSpaces rest)) as [Hpos|]; [|done].
  intros [= <-]. pose proof (nonSpaces_le rest) as Hle.
  destruct (nonSpaces_take rest) as [Hrun Hall].
  rewrite take_app_ge, drop_app_length by lia.
  replace (length p + nonSpaces rest - length p)%nat
    with (nonSpaces rest) by lia.
  rewrite length_app. split_and!; [lia|lia|by eexists|done|].
  rewrite (proj2 (stripPrefix_Some p _ _) eq_refl), Hrun.
  destruct (Nat.ltb_spec 0 (nonSpaces rest)); [done|lia].
Qed.

Lemma urlAt_shape (s : jstring) (n : nat) :
  urlAt s = Some n →
  (0 < n <= length s)%nat
  ∧ (js "http://" `prefix_of` take n s ∨ js "https://" `prefix_of` take n s)
  ∧ Forall (λ c, isWhiteSpace c = false) (take n s)
  ∧ is_Some (urlAt (take n s)).
Proof.
  assert (∀ p, Forall (λ c, isWhiteSpace c = false) p →
            schemeAt p s = Some n →
            (0 < n <= length s)%nat
            ∧ p `prefix_of` take n s
            ∧ Forall (λ c, isWhiteSpace c = false) (take n s)) as Hscheme.
  { intros p Hp Hn.
    destruct (schemeAt_shape p s n Hn) as ([? ?] & [k Hk] & Hrest & _).
    split_and!; [lia|lia|by exists k|].
    rewrite <- (take_drop (length p) (take n s)). apply Forall_app. split; [|done].
    rewrite Hk, take_app_length. done. }
  unfold urlAt. destruct (schemeAt (js "https://") s) as [m|] eqn:E.
  - intros [= ->].
    destruct (Hscheme (js "https://")) as (? & ? & ?); [by repeat (constructor; [reflexivity|])|done|].
    split; [done|]. split; [by right|]. split; [done|].
    destruct (schemeAt_shape _ s n E) as (_ & _ & _ & ->). done.
  - intros Hn.
    destruct (Hscheme (js "http://")) as (? & ? & ?); [by repeat (constructor; [reflexivity|])|done|].
    split; [done|]. split; [by left|]. split; [done|].
    destruct (schemeAt_shape _ s n Hn) as (_ & _ & _ & ->).
    by destruct (schemeAt (js "https://") (take n s)).
Qed.

(** The leftmost match splits the string in three; the match is shaped
    like a link, and there is no match before it. *)
Lemma search_Some (s before url after : jstring) :
  search s = Some (before, url, after) →
  s = before ++ url ++ after
  ∧ (0 < length url)%nat
  ∧ (js "http://" `prefix_of` url ∨ js "https://" `prefix_of` url)
  ∧ Forall (λ c, isWhiteSpace c = false) url
  ∧ is_Some (search url)
  ∧ search before = None.
Proof.
  revert before; induction s as [|c s IH]; intros before; simpl.
  - destruct (urlAt []) as [n|] eqn:E; [|done]. by vm_compute in E.
  - destruct (urlAt (c :: s)) as [n|] eqn:E.
    + intros [= <- <- <-].
      destruct (urlAt_shape _ _ E) as ([? ?] & Hprefix & Hall & [m Hm]).
      split_and!; [by rewrite take_drop| | done |done | |done].
      * rewrite length_take. simpl in *. lia.
      * destruct (take n (c :: s)) as [|c' u] eqn:Eu; simpl; [by vm_compute in Hm|].
        by rewrite Hm.
    + destruct (search s) as [[[b u] a]|] eqn:Es; [|done].
      intros [= <- <- <-].
      destruct (IH b eq_refl) as (-> & Hlen & Hprefix & Hall & Hurl & Hb).
      split_and!; [done..|].
      simpl. rewrite Hb.
      destruct (urlAt (c :: b)) as [m|] eqn:Eb; [|done].
      destruct (urlAt_app (c :: b) (u ++ a)) as [m' Hm']; [by eexists|].
      simpl in Hm'. by rewrite E in Hm'.
Qed.

Lemma concat_splitFrom (fuel : nat) (s : jstring) :
  concat (splitFrom fuel s) = s.
Proof.
  revert s; induction fuel as [|fuel IH]; intros s; simpl.
  - destruct (search s) as [[[b u] a]|]; simpl; by rewrite app_nil_r.
  - destruct (search s) as [[[b u] a]|] eqn:E; simpl; [|by rewrite app_nil_r].
    rewrite IH. by destruct (search_Some _ _ _ _ E) as (-> & _).
Qed.

(** With a round of fuel per code unit, the parts alternate: no match in
    the parts at even places, a link at the odd ones. *)
Lemma splitFrom_alternates (fuel : nat) (s : jstring) :
  (length s <= fuel)%nat →
  ∀ i part, splitFrom fuel s !! i = Some part →
    if Nat.odd i
    then is_Some (search part)
         ∧ (js "http://" `prefix_of` part ∨ js "https://" `prefix_of` part)
         ∧ Forall (λ c, isWhiteSpace c = false) part
    else search part = None.
Proof.
  revert s; induction fuel as [|fuel IH]; intros s Hfuel i part.
  - destruct s; [|simpl in Hfuel; lia].
    assert (splitFrom 0 [] = [[]]) as -> by reflexivity.
    destruct i; [|done]. by intros [= <-].
  - simpl. destruct (search s) as [[[b u] a]|] eqn:E.
    + destruct (search_Some _ _ _ _ E) as (-> & Hlen & Hprefix & Hall & Hurl & Hb).
      destruct i as [|[|i]]; simpl.
      * by intros [= <-].
      * by intros [= <-].
      * intros Hpart. rewrite Nat.odd_succ, Nat.even_succ.
        apply (IH a); [|done]. rewrite !length_app in Hfuel. lia.
    + destruct i; [|done]. simpl. by intros [= <-].
Qed.

Lemma length_splitFrom_odd (fuel : nat) (s : jstring) :
  Nat.odd (length (splitFrom fuel s)) = true.
Proof.
  revert s; induction fuel as [|fuel IH]; intros s; simpl.
  - by destruct (search s) as [[[b u] a]|].
  - destruct (search s) as [[[b u] a]|]; [|done]. simpl.
    by rewrite Nat.odd_succ, Nat.even_succ.
Qed.

(** X9.  [formatMessageText] loses nothing: the texts shown by its parts,
    in order, make up the text it was given. *)
Theorem formatMessageText_shows_whole_text (text : jstring) :
  concat (shown <$> formatMessageText text) = text.
Proof.
  unfold formatMessageText, split. rewrite <- list_fmap_compose.
  transitivity (concat (splitFrom (length text) text));
    [|apply concat_splitFrom].
  f_equal. rewrite <- (list_fmap_id (splitFrom (length text) text)) at 2.
  apply list_fmap_ext. intros i part _. simpl.
  by destruct (bool_decide _).
Qed.

(** X10.  The parts of [formatMessageText] alternate, plain text first
    and last and an anchor at every odd place; an anchor's [href] is the
    text it shows, starts with "http://" or "https://" and holds no white
    space, and a plain part holds no link. *)
Theorem formatMessageText_alternates (text : jstring) :
  Nat.odd (length (formatMessageText text)) = true
  ∧ ∀ i r, formatMessageText text !! i = Some r →
      if Nat.odd i
      then ∃ url, r = Anchor url url
             ∧ (js "http://" `prefix_of` url ∨ js "https://" `prefix_of` url)
             ∧ Forall (λ c, isWhiteSpace c = false) url
      else ∃ plain, r = Plain plain ∧ search plain = None.
Proof.
  unfold formatMessageText, split. split.
  - rewrite length_fmap. apply length_splitFrom_odd.
  - intros i r Hr. rewrite list_lookup_fmap in Hr.
    destruct (splitFrom (length text) text !! i) as [part|] eqn:E; [|done].
    injection Hr as <-.
    pose proof (splitFrom_alternates (length text) text (le_n _) i part E) as H.
    destruct (Nat.odd i).
    + destruct H as (Hurl & Hprefix & Hall). exists part.
      by rewrite bool_decide_eq_true_2.
    + exists part. rewrite bool_decide_eq_false_2; [done|].
      rewrite H. by intros [? ?].
Qed.

End Links.

Example formatMessageText_sample :
  ChatBot.formatMessageText (js "Shop: https://www.yaga.co.za/apple911 now")
  = [ ChatBot.Plain (js "Shop: ");
      ChatBot.Anchor (js "https://www.yaga.co.za/apple911")
        (js "https://www.yaga.co.za/apple911");
      ChatBot.Plain (js " now") ].
Proof. by vm_compute. Qed.

(** ** More on the voice agent *)

Section VoiceMore.

Import LiveVoiceAgent.

Context `{Platform}.

(** A step that leaves the playback refs alone leaves the log alone. *)
Lemma scheduledBy_same (log : list Q) (s s' : Voice) :
  playback s' = playback s →
  scheduledBy log s → scheduledBy (logged s s' log) s'.
Proof.
  intros Hp Hs. unfold logged, scheduledBy. rewrite Hp.
  by rewrite Nat.ltb_irrefl.
Qed.

(** A [schedule] step adds the node and, to the log, the cursor it
    leaves. *)
Lemma scheduledBy_schedule (log : list Q) (audioBuffer : AudioBuffer) (t : Q)
    (s s1 : Voice) :
  playback s1 = playback s →
  scheduledBy log s →
  scheduledBy (logged s (schedule audioBuffer t s1) log)
    (schedule audioBuffer t s1).
Proof.
  intros Hp (Hlen & Hdom & Hends & Hdisj).
  unfold logged, scheduledBy, schedule. cbv zeta. simpl. rewrite Hp.
  set (p := playback s) in *.
  rewrite length_app. simpl.
  destruct (Nat.ltb_spec (length (nodes p)) (length (nodes p) + 1));
    [|lia].
  set (n0 := {| buffer := audioBuffer;
                startedAt := Qmax (nextStartTimeRef p) t;
                stopped := false |}).
  set (u0 := (Qmax (nextStartTimeRef p) t + duration audioBuffer)%Q).
  assert (nextStartTimeRef p <= startedAt n0)%Q as Hn0 by apply Q.le_max_l.
  assert (startedAt n0 <= u0)%Q as Hd.
  { unfold u0. pose proof (duration_nonneg audioBuffer). simpl. lra. }
  assert (∀ i n u, i ∈ ({[length (nodes p)]} ∪ sourcesRef p : gset nat) →
            (nodes p ++ [n0]) !! i = Some n →
            (log ++ [u0]) !! i = Some u →
            (i = length (nodes p) ∧ n = n0 ∧ u = u0)
            ∨ (i ∈ sourcesRef p ∧ nodes p !! i = Some n ∧ log !! i = Some u))
    as Hcases.
  { intros i n u Hi Hn Hu. apply elem_of_union in Hi as [Hi|Hi].
    - apply elem_of_singleton in Hi as ->. left. split; [done|].
      rewrite lookup_app_r, Nat.sub_diag in Hn by lia.
      rewrite lookup_app_r, Hlen, Nat.sub_diag in Hu by lia.
      split; [by injection Hn|by injection Hu].
    - right. specialize (Hdom i Hi). split; [done|].
      rewrite lookup_app_l in Hn by done.
      rewrite lookup_app_l in Hu by lia. done. }
  split_and!.
  - rewrite length_app. simpl. lia.
  - intros i Hi. apply elem_of_union in Hi as [Hi|Hi].
    + apply elem_of_singleton in Hi as ->. lia.
    + specialize (Hdom i Hi). lia.
  - intros i n u Hi Hn Hu.
    destruct (Hcases i n u Hi Hn Hu) as [(-> & -> & ->)|(Hi' & Hn' & Hu')].
    + split; [done|]. apply Qle_refl.
    + destruct (Hends i n u Hi' Hn' Hu') as [H1 H2]. split; [done|].
      fold u0. lra.
  - intros i j a b u v Hij Hi Hj Ha Hb Hu Hv (x & [Ha1 Ha2] & [Hb1 Hb2]).
    destruct (Hcases i a u Hi Ha Hu) as [(-> & -> & ->)|(Hi' & Ha' & Hu')],
             (Hcases j b v Hj Hb Hv) as [(-> & -> & ->)|(Hj' & Hb' & Hv')].
    + done.
    + destruct (Hends j b v Hj' Hb' Hv') as [_ H2]. lra.
    + destruct (Hends i a u Hi' Ha' Hu') as [_ H2]. lra.
    + apply (Hdisj i j a b u v Hij Hi' Hj' Ha' Hb' Hu' Hv'). by exists x.
Qed.

Lemma scheduledBy_interrupt (log : list Q) (t : Q) (s : Voice) :
  scheduledBy log s → scheduledBy (logged s (interrupt t s) log) (interrupt t s).
Proof.
  intros (Hlen & _). unfold logged, scheduledBy, interrupt. simpl.
  rewrite stop_all_length, Nat.ltb_irrefl. split_and!.
  - done.
  - intros i Hi. by apply not_elem_of_empty in Hi.
  - intros i n u Hi. by apply not_elem_of_empty in Hi.
  - intros i j a b u v _ Hi. by apply not_elem_of_empty in Hi.
Qed.

Lemma scheduledBy_onended (log : list Q) (i : nat) (s : Voice) :
  scheduledBy log s → scheduledBy (logged s (onended i s) log) (onended i s).
Proof.
  intros (Hlen & Hdom & Hends & Hdisj). unfold logged, scheduledBy, onended.
  simpl. rewrite Nat.ltb_irrefl. split_and!.
  - done.
  - intros j Hj. apply elem_of_difference in Hj as [Hj _]. by apply Hdom.
  - intros j n u Hj. apply elem_of_difference in Hj as [Hj _]. by apply Hends.
  - intros j k a b u v Hjk Hj Hk.
    apply elem_of_difference in Hj as [Hj _].
    apply elem_of_difference in Hk as [Hk _]. by apply Hdisj.
Qed.

(** Every handler keeps the playback refs and the log together. *)
Lemma handle_scheduledBy (log : list Q) (e : VoiceEvent) (s : Voice) :
  scheduledBy log s → scheduledBy (logged s (handle s e) log) (handle s e).
Proof.
  intros Hs. destruct e; simpl.
  - apply scheduledBy_same; [|done]. unfold startSession.
    destruct (negb _); [done|]. by destruct connects.
  - apply scheduledBy_same; [|done].
    unfold onopen, startInputStream, thenSession. simpl.
    destruct (_ || _); [|destruct granted]; simpl;
      by destruct (sessionPromiseRef s) as [[]|].
  - unfold onmessage, onmessage_begin.
    destruct (bool_decide _); [by apply scheduledBy_interrupt|].
    pose proof (handleToolCall_keeps_refs message s) as [_ Hp].
    destruct (handleToolCall message s) as [s1|s1]; simpl in Hp;
      [|by apply scheduledBy_same].
    destruct (serverContent message ≫= inlineData) as [d|];
      [|by apply scheduledBy_same].
    destruct (_ && _); [|by apply scheduledBy_same].
    unfold onmessage_resume.
    destruct (decodeAudioData d); [|by apply scheduledBy_same].
    by apply scheduledBy_schedule.
  - apply scheduledBy_same; [|done]. unfold onaudioprocess, thenSession.
    destruct (processorRef (audio s)) as [[? []]|]; try done.
    by destruct (sessionPromiseRef s) as [[]|].
  - by apply scheduledBy_onended.
  - by apply scheduledBy_same.
  - apply scheduledBy_same; [|done]. unfold handleDisconnect. cbv zeta.
    by destruct (animationFrameRef (audio s)) as [h|]; [destruct (h =? 0)%N|].
  - apply scheduledBy_same; [|done]. unfold onclose, handleDisconnect.
    cbv zeta.
    by destruct (animationFrameRef (audio s)) as [h|]; [destruct (h =? 0)%N|].
  - by apply scheduledBy_same.
Qed.

(** X11.  In every run of the component from its first render, whatever
    handlers run in whatever order (messages with audio, interruptions,
    ended nodes, disconnects, errors): every node has the cursor its
    [schedule] step left as the end of its window; the window of a clip of
    the active set ends no earlier than the clip starts and no later than
    the cursor; and the windows of two clips of the active set share no
    instant. *)
Theorem active_set_invariant (events : list VoiceEvent) :
  let p := playback (run events initial) in
  let ends := windowEnds events initial [] in
  length ends = length (nodes p)
  ∧ (∀ i n u, i ∈ sourcesRef p → nodes p !! i = Some n → ends !! i = Some u →
              (startedAt n <= u)%Q ∧ (u <= nextStartTimeRef p)%Q)
  ∧ (∀ i j a b u v, i ≠ j → i ∈ sourcesRef p → j ∈ sourcesRef p →
                    nodes p !! i = Some a → nodes p !! j = Some b →
                    ends !! i = Some u → ends !! j = Some v →
                    ¬ ∃ t, within t (startedAt a) u ∧ within t (startedAt b) v).
Proof.
  assert (∀ s log, scheduledBy log s →
            scheduledBy (windowEnds events s log) (run events s)) as Hrun.
  { induction events as [|e events IH]; intros s log Hs; [done|].
    apply IH. by apply handle_scheduledBy. }
  assert (scheduledBy [] initial) as Hinitial.
  { unfold scheduledBy. simpl. split_and!.
    - done.
    - intros i Hi. by apply not_elem_of_empty in Hi.
    - intros i n u Hi. by apply not_elem_of_empty in Hi.
    - intros i j a b u v _ Hi. by apply not_elem_of_empty in Hi. }
  intros p ends.
  destruct (Hrun initial [] Hinitial) as (Hlen & _ & Hends & Hdisj).
  by split_and!.
Qed.

(** X12.  A message that is not an interruption, handled while the
    connection promise is fulfilled, whose invocations can all be
    answered: after the invocations' effects, exactly one acknowledgment
    is sent; it holds one response per invocation, in order, each with its
    invocation's id and name; and an invocation of an undeclared tool has
    no effect and is answered with "Unknown tool". *)
Theorem voice_message_is_acknowledged_once
    (message : LiveServerMessage) (t0 t1 : Q) (s : Voice)
    (fcs : list FunctionCall) :
  serverContent message ≫= interrupted ≠ Some true →
  toolCall message = Some fcs →
  Forall answerable fcs →
  sessionPromiseRef s = Some Fulfilled →
  ∃ sent,
    LiveVoiceAgent.trace (onmessage message t0 t1 s)
    = LiveVoiceAgent.trace s ++ concat (effectOf <$> fcs)
      ++ [ SendToolResponse sent ]
    ∧ fr_id <$> sent = fc_id <$> fcs
    ∧ fr_name <$> sent = fc_name <$> fcs
    ∧ ∀ i fc, fcs !! i = Some fc → recognised fc = false →
        effectOf fc = []
        ∧ sent !! i = Some {| fr_id := fc_id fc; fr_name := fc_name fc;
                              fr_result := js "Unknown tool" |}.
Proof.
  intros Hint Hcall Hfcs Hsession. exists (responseOf <$> fcs).
  rewrite (onmessage_tool_trace message t0 t1 s fcs Hint Hcall Hfcs), Hsession.
  split_and!; [done| | |].
  - rewrite <- list_fmap_compose. by apply list_fmap_ext.
  - rewrite <- list_fmap_compose. by apply list_fmap_ext.
  - intros i fc Hi Hrec. unfold recognised in Hrec.
    apply orb_false_iff in Hrec as [H1 H2].
    apply bool_decide_eq_false in H1, H2.
    rewrite list_lookup_fmap, Hi. simpl. unfold effectOf, responseOf, resultOf.
    destruct (decide (fc_name fc = js "update_whatsapp_context")); [done|].
    destruct (decide (fc_name fc = js "open_booking_form")); [done|].
    by split.
Qed.

Lemma forOf_app {A B} (body : B → A → Completion A) (l1 l2 : list B) (a a1 : A) :
  forOf body l1 a = Normal a1 →
  forOf body (l1 ++ l2) a = forOf body l2 a1.
Proof.
  revert a; induction l1 as [|x l1 IH]; intros a; simpl.
  - by intros [= ->].
  - destruct (body x a); [apply IH|done].
Qed.

(** X13.  When [encodeURIComponent] throws on the summary of one
    invocation of a message, the handler ends there: the effects of the
    invocations before it stay, no acknowledgment is sent for any
    invocation of the message, and the audio the message carries is not
    scheduled. *)
Theorem throwing_summary_leaves_message_unacknowledged
    (message : LiveServerMessage) (t0 t1 : Q) (s : Voice)
    (before after : list FunctionCall) (fc : FunctionCall) :
  serverContent message ≫= interrupted ≠ Some true →
  toolCall message = Some (before ++ fc :: after) →
  Forall answerable before →
  fc_name fc = js "update_whatsapp_context" →
  encodeURIComponent (fc_args fc !! "summary") = None →
  let s' := onmessage message t0 t1 s in
  onmessage_begin message t0 s = Threw s'
  ∧ LiveVoiceAgent.trace s'
    = LiveVoiceAgent.trace s ++ concat (effectOf <$> before)
  ∧ playback s' = playback s.
Proof.
  intros Hint Hcall Hbefore Hname Hthrow.
  unfold onmessage, onmessage_begin.
  rewrite bool_decide_eq_false_2 by done.
  unfold handleToolCall. rewrite Hcall.
  destruct (respond_batch before s [] Hbefore) as (s1 & E1 & T1 & _ & _ & P1).
  rewrite (forOf_app _ _ _ _ _ E1). cbn [forOf].
  assert (∀ st, respond fc st = Abrupt st) as E2.
  { intros [s2 rs]. unfold respond. rewrite decide_True by done.
    by rewrite Hthrow. }
  rewrite !E2. by split_and!.
Qed.

(** While the component holds no connection promise, a message sends
    nothing to the service, whatever it carries and however its handler
    ends. *)
Lemma onmessage_sends_nothing (message : LiveServerMessage) (t0 t1 : Q)
    (s : Voice) :
  sessionPromiseRef s = None →
  sentToService (LiveVoiceAgent.trace (onmessage message t0 t1 s))
  = sentToService (LiveVoiceAgent.trace s).
Proof.
  intros Hnone. unfold onmessage, onmessage_begin.
  destruct (bool_decide _); [done|].
  assert (sessionPromiseRef (outcome (handleToolCall message s)) = None
          ∧ sentToService (LiveVoiceAgent.trace (outcome (handleToolCall message s)))
            = sentToService (LiveVoiceAgent.trace s)) as [_ Hsent].
  { unfold handleToolCall. destruct (toolCall message) as [fcs|]; [|done].
    pose proof (forOf_outcome
                  (λ st st' : Voice * list FunctionResponse,
                     sessionPromiseRef st'.1 = sessionPromiseRef st.1
                     ∧ sentToService (LiveVoiceAgent.trace st'.1)
                       = sentToService (LiveVoiceAgent.trace st.1))
                  respond) as Hloop.
    destruct (Hloop) with (l := fcs) (a := (s, @nil FunctionResponse))
      as [Hp Ht].
    - done.
    - intros a1 a2 a3 [P1 T1] [P2 T2]. split; congruence.
    - intros fc [s0 rs]. unfold respond.
      destruct (decide (fc_name fc = js "update_whatsapp_context")).
      + destruct (encodeURIComponent (fc_args fc !! "summary")); [|done].
        simpl. split; [done|]. unfold sentToService.
        by rewrite List.filter_app, app_nil_r.
      + destruct (decide (fc_name fc = js "open_booking_form")); [|done].
        simpl. split; [done|]. unfold sentToService.
        by rewrite List.filter_app, app_nil_r.
    - simpl in Hp, Ht. rewrite Hnone in Hp.
      destruct (forOf respond fcs (s, [])) as [[s1 rs]|[s1 rs]];
        simpl in *; [|done].
      unfold thenSession. by rewrite Hp. }
  destruct (handleToolCall message s) as [s1|s1]; simpl in Hsent; [|done].
  destruct (serverContent message ≫= inlineData) as [d|]; [|done].
  destruct (_ && _); [|done].
  unfold onmessage_resume. by destruct (decodeAudioData d).
Qed.

(** X14.  After [handleDisconnect] nothing more is sent to the service: a
    capture buffer that still arrives leaves the state as it is; whatever
    message still arrives, interrupted or not and whatever its summaries,
    what has been sent to the service stays what it was; and a message
    that is no interruption and whose summaries [encodeURIComponent]
    accepts has its invocations' effects, in order, and no
    acknowledgment. *)
Theorem nothing_is_sent_after_disconnect
    (s : Voice) :
  (∀ inputData, onaudioprocess inputData (handleDisconnect s)
                = handleDisconnect s)
  ∧ (∀ message t0 t1,
       sentToService
         (LiveVoiceAgent.trace (onmessage message t0 t1 (handleDisconnect s)))
       = sentToService (LiveVoiceAgent.trace (handleDisconnect s)))
  ∧ (∀ message t0 t1 fcs,
       serverContent message ≫= interrupted ≠ Some true →
       toolCall message = Some fcs →
       Forall answerable fcs →
       LiveVoiceAgent.trace (onmessage message t0 t1 (handleDisconnect s))
       = LiveVoiceAgent.trace (handleDisconnect s)
         ++ concat (effectOf <$> fcs)).
Proof.
  assert (sessionPromiseRef (handleDisconnect s) = None) as Hnone.
  { unfold handleDisconnect. cbv zeta.
    by destruct (animationFrameRef (audio s)) as [h|]; [destruct (h =? 0)%N|]. }
  split_and!.
  - intros inputData. unfold onaudioprocess, thenSession. rewrite Hnone.
    by destruct (processorRef (audio (handleDisconnect s))) as [[? []]|].
  - intros message t0 t1. by apply onmessage_sends_nothing.
  - intros message t0 t1 fcs Hint Hcall Hfcs.
    rewrite (onmessage_tool_trace message t0 t1 _ fcs Hint Hcall Hfcs), Hnone.
    by rewrite app_nil_r.
Qed.

(** X15.  Disconnecting twice is disconnecting once, but for a pending
    animation frame, which is cancelled again; and a disconnect leaves the
    playback refs alone: the clips of the active set are neither stopped
    nor removed, and the cursor stays. *)
Theorem handleDisconnect_twice (s : Voice) :
  handleDisconnect (handleDisconnect s)
  = match animationFrameRef (audio s) with
    | Some handle =>
        if (handle =? 0)%N then handleDisconnect s
        else emit (CancelAnimationFrame handle) (handleDisconnect s)
    | None => handleDisconnect s
    end
  ∧ playback (handleDisconnect s) = playback s.
Proof.
  destruct s as [? ? ? ? [ic oc st pr so fr] ? ? ? ? ?].
  unfold handleDisconnect. simpl.
  destruct fr as [h|]; [destruct (h =? 0)%N eqn:E|]; simpl; rewrite ?E;
    destruct ic, oc, st, pr, so; simpl; by split.
Qed.

Lemma toggled_stuck (API_KEY : option jstring) (connects : bool)
    (changes : list bool) (s : Voice) :
  status s = error → isConnected s = false →
  toggled API_KEY connects changes s = s.
Proof.
  intros Herr Hoff. induction changes as [|isOpen changes IH]; [done|].
  assert (openEffect API_KEY connects s isOpen = s) as Hsame.
  { unfold openEffect. rewrite Herr, Hoff.
    rewrite bool_decide_eq_false_2 by done. by rewrite !andb_false_r. }
  unfold toggled in *. simpl. by rewrite Hsame.
Qed.

(** X16.  Once a start has failed (the state is [error] and the component
    is not connected), opening and closing the panel, however often,
    starts no session and changes nothing: only [handleDisconnect] leads
    back to [disconnected]. *)
Theorem failed_start_is_not_retried
    (API_KEY : option jstring) (connects : bool) (changes : list bool)
    (s : Voice) :
  status s = error →
  isConnected s = false →
  toggled API_KEY connects changes s = s.
Proof. apply toggled_stuck. Qed.

(** X22.  Opening the panel of a disconnected component without an API
    key sets the state to [error] and does nothing else (no audio context
    is created, no connection requested), and every later opening or
    closing of the panel leaves that state as it is. *)
Theorem missing_key_never_connects
    (API_KEY : option jstring) (connects : bool) (changes : list bool)
    (s : Voice) :
  from_option truthy false API_KEY = false →
  status s = disconnected →
  isConnected s = false →
  toggled API_KEY connects (true :: changes) s = setStatus error s.
Proof.
  intros Hkey Hstatus Hoff. unfold toggled. simpl.
  assert (openEffect API_KEY connects s true = setStatus error s) as ->.
  { unfold openEffect, startSession. rewrite Hstatus, Hoff, Hkey.
    by destruct s. }
  apply toggled_stuck; [done|]. by destruct s.
Qed.

(** X17.  When the microphone is refused, the session still reports
    [connected], and no capture frame is ever sent. *)
Theorem refused_microphone_leaves_session_deaf (s : Voice) :
  processorRef (audio s) = None →
  let s' := onopen false s in
  status s' = connected
  ∧ isConnected s' = true
  ∧ streamRef (audio s') = streamRef (audio s)
  ∧ ∀ inputData, onaudioprocess inputData s' = s'.
Proof.
  intros Hnone. unfold onopen, startInputStream, thenSession. simpl.
  assert (∀ s1, processorRef (audio s1) = None →
            ∀ inputData, onaudioprocess inputData s1 = s1) as Hdeaf.
  { intros s1 H1 inputData. unfold onaudioprocess. by rewrite H1. }
  destruct (_ || _); simpl; destruct (sessionPromiseRef s) as [[]|]; simpl;
    split_and!; try done; by apply Hdeaf.
Qed.

(** X18.  No clip of a batch is started in the past or before the cursor
    the batch found, and the batch never moves the cursor back. *)
Theorem clips_never_start_in_the_past
    (clips : list (AudioBuffer * Q)) (s : Voice) :
  (nextStartTimeRef (playback s)
   <= nextStartTimeRef (playback (scheduleAll clips s)))%Q
  ∧ ∀ i clip n,
      clips !! i = Some clip →
      nodes (playback (scheduleAll clips s)) !! (length (nodes (playback s)) + i)%nat
        = Some n →
      (clip.2 <= startedAt n)%Q
      ∧ (nextStartTimeRef (playback s) <= startedAt n)%Q.
Proof.
  destruct (scheduleAll_chain clips s)
    as (started & Hnodes & Hlen & Hfrom & _ & Hcursor & _).
  split; [done|]. intros i clip n Hclip Hn.
  destruct (scheduleAll_rule clips s i clip Hclip) as [Hrule _].
  rewrite Hrule in Hn. injection Hn as <-. simpl. split.
  - apply Q.le_max_r.
  - rewrite Hnodes, lookup_app_r in Hrule by lia.
    rewrite Forall_forall in Hfrom.
    apply (Hfrom {| buffer := clip.1;
                    startedAt := Qmax (nextStartTimeRef
                                         (playback (scheduleAll (take i clips) s)))
                                   clip.2;
                    stopped := false |}).
    eapply list_elem_of_lookup_2. exact Hrule.
Qed.

(** X19.  The [onended] callback of a node that an interruption stopped
    changes nothing; and a clip that is scheduled and then ends leaves the
    active set as it was. *)
Theorem ended_nodes_leave_the_set (s : Voice) :
  (∀ t i, onended i (interrupt t s) = interrupt t s)
  ∧ (∀ audioBuffer t,
       length (nodes (playback s)) ∉ sourcesRef (playback s) →
       sourcesRef (playback
                     (onended (length (nodes (playback s)))
                        (schedule audioBuffer t s)))
       = sourcesRef (playback s)).
Proof.
  split.
  - intros t i. unfold onended, interrupt. simpl.
    replace (∅ ∖ {[i]} : gset nat) with (∅ : gset nat); [done|].
    apply set_eq. intros x. rewrite elem_of_difference.
    split; [intros Hx|intros [Hx _]]; by apply not_elem_of_empty in Hx.
  - intros audioBuffer t Hfresh. unfold onended, schedule. simpl.
    apply set_eq. intros x.
    rewrite elem_of_difference, elem_of_union, elem_of_singleton. split.
    + intros [[->|Hx] Hne]; [done|done].
    + intros Hx. split; [by right|]. intros ->. done.
Qed.

End VoiceMore.

(** ** The visualiser's level *)

Section Visualiser.

Import LiveVoiceAgent.

Lemma byte_bounds (b : Byte.byte) :
  (0 <= inject_Z (Z.of_N (Byte.to_N b)) <= 255)%Q.
Proof.
  pose proof (Byte.to_N_bounded b) as Hb.
  split.
  - change 0%Q with (inject_Z 0). rewrite <- Zle_Qle. lia.
  - change 255%Q with (inject_Z 255). rewrite <- Zle_Qle. lia.
Qed.

Lemma fold_sum_bounds (dataArray : list Byte.byte) (acc : Q) :
  let total := fold_left (λ sum b, sum + inject_Z (Z.of_N (Byte.to_N b)))%Q
                 dataArray acc in
  (acc <= total)%Q
  ∧ (total <= acc + 255 * inject_Z (Z.of_nat (length dataArray)))%Q.
Proof.
  revert acc; induction dataArray as [|b l IH]; intros acc; simpl.
  - change (inject_Z (Z.of_nat 0)) with 0%Q. lra.
  - destruct (IH (acc + inject_Z (Z.of_N (Byte.to_N b)))%Q) as [H1 H2].
    pose proof (byte_bounds b) as [Hb1 Hb2].
    assert (inject_Z (Z.of_nat (S (length l)))
            == inject_Z (Z.of_nat (length l)) + 1)%Q as Hlen.
    { rewrite Nat2Z.inj_succ. unfold Z.succ. by rewrite inject_Z_plus. }
    split; [lra|]. rewrite Hlen. lra.
Qed.

(** X20.  For a non-empty array of frequency bins: the level lies between
    0 and 255/128, so the logo's scale factor lies between 1 and
    1 + 0.15 * 255/128, and it stays within 1.15 exactly when the average
    bin does not exceed 128; the glow radius added lies between 0 and
    20 * 255/128, and the alpha of the glow is at least 0.5. *)
Theorem visualiser_level_bounds (dataArray : list Byte.byte) :
  dataArray ≠ [] →
  let average := (sum dataArray / inject_Z (Z.of_nat (length dataArray)))%Q in
  (0 <= normalized dataArray <= 255 # 128)%Q
  ∧ (1 <= scale dataArray <= 1 + (255 # 128) * (15 # 100))%Q
  ∧ ((scale dataArray <= 115 # 100)%Q ↔ (average <= 128)%Q)
  ∧ (0 <= glow dataArray <= 20 * (255 # 128))%Q
  ∧ ((1 # 2) <= glowAlpha dataArray)%Q.
Proof.
  intros Hne average.
  assert (0 < inject_Z (Z.of_nat (length dataArray)))%Q as Hlen.
  { change 0%Q with (inject_Z 0). rewrite <- Zlt_Qlt.
    destruct dataArray; [done|]. simpl. lia. }
  destruct (fold_sum_bounds dataArray 0) as [Hlo Hhi]. fold (sum dataArray) in *.
  assert (0 <= average <= 255)%Q as [Ha1 Ha2].
  { split.
    - apply Qle_shift_div_l; [done|]. lra.
    - apply Qle_shift_div_r; [done|]. lra. }
  unfold scale, glow, glowAlpha, normalized. fold average.
  assert (average / 128 == average * (1 # 128))%Q as -> by (unfold Qdiv; reflexivity).
  repeat split; lra.
Qed.

End Visualiser.

Lemma visualiser_level_witness :
  (LiveVoiceAgent.scale [Byte.xff; Byte.xff] == 1 + (255 # 128) * (15 # 100))%Q.
Proof.
  destruct (visualiser_level_bounds [Byte.xff; Byte.xff]) as (_ & [_ Hhi] & _);
    [done|].
  apply Qle_antisym; [exact Hhi|]. by vm_compute.
Defined.

(** ** Further concrete runs *)

Section MoreRuns.

(** A two-turn log that is valid as it stands is submitted whole. *)
Lemma sanitize_keeps_valid_log_witness :
  ChatBot.sanitize
    [ ChatBot.turn "10" ChatBot.user "A"; ChatBot.turn "11" ChatBot.model "B" ]
  = ChatBot.toContent
    <$> [ ChatBot.turn "10" ChatBot.user "A";
          ChatBot.turn "11" ChatBot.model "B" ].
Proof.
  apply (sanitize_keeps_valid_log
           [ ChatBot.turn "10" ChatBot.user "A";
             ChatBot.turn "11" ChatBot.model "B" ]).
  - reflexivity.
  - reflexivity.
  - discriminate.
Defined.

(** Clearing the idle chat and reopening it with a key. *)
Lemma clearHistory_witness :
  ChatBot.chatSession
    (ChatBot.initEffect true (Some (js "key"))
       (ChatBot.clearHistory ChatBot.idleChat))
  = Some {| ChatBot.history := [] |}.
Proof.
  apply (clearHistory_restarts_from_empty_history (js "key") ChatBot.idleChat).
  reflexivity.
Defined.

(** A submission whose [sendMessageStream] rejects: only the user turn is
    appended. *)
Lemma accepted_submission_witness :
  ChatBot.msg_role
  <$> ChatBot.messages
        (ChatBot.handleSendMessage (js "hi") 5 6 None (λ _, ChatBot.Rejects)
           ChatBot.idleChat)
  = [ ChatBot.model; ChatBot.user ].
Proof.
  apply (accepted_submission_appends_turns (js "hi") 5%N 6%N None
           (λ _, ChatBot.Rejects) ChatBot.idleChat).
  - reflexivity.
  - by eexists.
  - reflexivity.
Defined.

(** Two spaces are no submission. *)
Lemma blank_submission_witness :
  ChatBot.handleSendMessage (js "  ") 5 6 None (λ _, ChatBot.Rejects)
    ChatBot.idleChat
  = ChatBot.idleChat.
Proof.
  apply (blank_or_untimely_submission_is_ignored (js "  ") 5%N 6%N None
           (λ _, ChatBot.Rejects) ChatBot.idleChat).
  left. by repeat (constructor; [reflexivity|]).
Defined.

(** A stream that breaks after the fragment "Hel". *)
Lemma broken_stream_witness :
  let c' := ChatBot.handleSendMessage (js "hi") 5 6
              (Some {| ChatBot.chunks := [ ChatBot.fragment [] "Hel" ];
                       ChatBot.breaks := true |})
              (ChatBot.answered (λ _, None)) ChatBot.idleChat in
  last (ChatBot.messages c') = Some (ChatBot.turn "7" ChatBot.model "Hel")
  ∧ ChatBot.error c' = Some (js "Data Stream Interrupted.")
  ∧ ChatBot.isLoading c' = false.
Proof.
  apply (broken_stream_keeps_partial_text (λ _, None) (js "hi") 5%N 6%N
           [ ChatBot.fragment [] "Hel" ] ChatBot.idleChat).
  - reflexivity.
  - by eexists.
  - reflexivity.
Defined.

(** A voice message with a booking call and a call of an undeclared
    tool: one acknowledgment with two responses. *)
Lemma voice_acknowledgment_witness :
  let fcs := [ callOf "call-1" "open_booking_form" [];
               callOf "call-2" "reboot_device" [] ] in
  ∃ sent,
    LiveVoiceAgent.trace
      (LiveVoiceAgent.onmessage (H := LiveVoiceAgent.samplePlatform)
         {| LiveVoiceAgent.serverContent := None;
            LiveVoiceAgent.toolCall := Some fcs |}
         0 0 LiveVoiceAgent.liveSession)
    = LiveVoiceAgent.trace LiveVoiceAgent.liveSession
      ++ concat (LiveVoiceAgent.effectOf (H := LiveVoiceAgent.samplePlatform)
                 <$> fcs)
      ++ [ LiveVoiceAgent.SendToolResponse sent ]
    ∧ LiveVoiceAgent.fr_id <$> sent = [ js "call-1"; js "call-2" ].
Proof.
  intros fcs.
  destruct (voice_message_is_acknowledged_once
              (H := LiveVoiceAgent.samplePlatform)
              {| LiveVoiceAgent.serverContent := None;
                 LiveVoiceAgent.toolCall := Some fcs |}
              0%Q 0%Q LiveVoiceAgent.liveSession fcs)
    as (sent & Htrace & Hids & _).
  - discriminate.
  - reflexivity.
  - repeat constructor; intros Hname; by vm_compute in Hname.
  - reflexivity.
  - exists sent. by split.
Defined.

(** A booking call, then a summary that is a lone surrogate, then another
    call: the draft is forwarded and nothing is acknowledged. *)
Lemma throwing_summary_witness :
  let message :=
    {| LiveVoiceAgent.serverContent := None;
       LiveVoiceAgent.toolCall :=
         Some ([ callOf "call-1" "open_booking_form" [] ]
               ++ callOf "call-2" "update_whatsapp_context"
                    [("summary", [55296%N])]
                  :: [ callOf "call-3" "open_booking_form" [] ]) |} in
  LiveVoiceAgent.trace
    (LiveVoiceAgent.onmessage (H := LiveVoiceAgent.throwingPlatform)
       message 0 0 LiveVoiceAgent.liveSession)
  = LiveVoiceAgent.trace LiveVoiceAgent.liveSession
    ++ [ LiveVoiceAgent.OpenBookingForm (bookingDataOf ∅) ].
Proof.
  intros message.
  destruct (throwing_summary_leaves_message_unacknowledged
              (H := LiveVoiceAgent.throwingPlatform)
              message 0%Q 0%Q LiveVoiceAgent.liveSession
              [ callOf "call-1" "open_booking_form" [] ]
              [ callOf "call-3" "open_booking_form" [] ]
              (callOf "call-2" "update_whatsapp_context"
                 [("summary", [55296%N])]))
    as (_ & Htrace & _).
  - discriminate.
  - reflexivity.
  - repeat constructor; intros Hname; by vm_compute in Hname.
  - reflexivity.
  - reflexivity.
  - exact Htrace.
Defined.

(** A start that found no connection, then the panel closed and opened
    twice. *)
Lemma failed_start_witness :
  let failed := LiveVoiceAgent.startSession (Some (js "key")) false
                  LiveVoiceAgent.initial in
  LiveVoiceAgent.toggled (Some (js "key")) true [false; true; false; true]
    failed
  = failed.
Proof.
  intros failed.
  apply (failed_start_is_not_retried (Some (js "key")) true
           [false; true; false; true] failed); reflexivity.
Defined.

(** The first opening of the panel without a key. *)
Lemma missing_key_witness :
  LiveVoiceAgent.toggled None true [true; false; true] LiveVoiceAgent.initial
  = LiveVoiceAgent.setStatus LiveVoiceAgent.error LiveVoiceAgent.initial.
Proof.
  apply (missing_key_never_connects None true [false; true]
           LiveVoiceAgent.initial); reflexivity.
Defined.

(** A session opened with the microphone refused. *)
Lemma refused_microphone_witness :
  let s := LiveVoiceAgent.startSession (Some (js "key")) true
             LiveVoiceAgent.initial in
  LiveVoiceAgent.status (LiveVoiceAgent.onopen false s)
  = LiveVoiceAgent.connected.
Proof.
  intros s.
  destruct (refused_microphone_leaves_session_deaf
              (H := LiveVoiceAgent.samplePlatform) s) as (Hstatus & _);
    [reflexivity|exact Hstatus].
Defined.

(** The live session keeps its output context through an interruption and
    a disconnect. *)
Lemma output_context_witness :
  is_Some
    (LiveVoiceAgent.outputAudioContextRef
       (LiveVoiceAgent.audio
          (LiveVoiceAgent.run (H := LiveVoiceAgent.samplePlatform)
             [ LiveVoiceAgent.Message LiveVoiceAgent.bargeIn 0 0;
               LiveVoiceAgent.Disconnect ]
             LiveVoiceAgent.liveSession))).
Proof.
  apply (output_context_persists (H := LiveVoiceAgent.samplePlatform)
           [ LiveVoiceAgent.Message LiveVoiceAgent.bargeIn 0 0;
             LiveVoiceAgent.Disconnect ]
           LiveVoiceAgent.liveSession).
  by eexists.
Defined.

(** In the sample conversation the two clips get the windows' ends 1/6000
    and 1/3000; the second starts where the first ends, and is the one
    still in the active set. *)
Example conversation_windows :
  let s := LiveVoiceAgent.run (H := LiveVoiceAgent.samplePlatform)
             LiveVoiceAgent.conversation LiveVoiceAgent.initial in
  Qred <$> LiveVoiceAgent.windowEnds (H := LiveVoiceAgent.samplePlatform)
             LiveVoiceAgent.conversation LiveVoiceAgent.initial []
  = [ (1 # 6000)%Q; (1 # 3000)%Q ]
  ∧ (Qred ∘ LiveVoiceAgent.startedAt)
      <$> LiveVoiceAgent.nodes (LiveVoiceAgent.playback s)
    = [ 0%Q; (1 # 6000)%Q ]
  ∧ elements (LiveVoiceAgent.sourcesRef (LiveVoiceAgent.playback s))
    = [ 1%nat ].
Proof. by vm_compute. Qed.

(** After a disconnect, an interruption that carries an invocation leaves
    the trace as it is, and a message with a booking invocation forwards
    the draft and sends nothing. *)
Example messages_after_disconnect :
  let s := LiveVoiceAgent.handleDisconnect LiveVoiceAgent.liveSession in
  LiveVoiceAgent.trace
    (LiveVoiceAgent.onmessage (H := LiveVoiceAgent.samplePlatform)
       LiveVoiceAgent.bargeIn 0 0 s)
  = LiveVoiceAgent.trace s
  ∧ LiveVoiceAgent.trace
      (LiveVoiceAgent.onmessage (H := LiveVoiceAgent.samplePlatform)
         LiveVoiceAgent.booking 0 0 s)
    = LiveVoiceAgent.trace s
      ++ [ LiveVoiceAgent.OpenBookingForm
             (bookingDataOf (fc_args (callOf "call-1" "open_booking_form"
                                        [("name", js "Sam")]))) ].
Proof. by vm_compute. Qed.

End MoreRuns.
